(** * Outline editor: extraction, identifier re-attachment and reconciliation

    A shallow embedding of [src/main.ts] (class [OutlineEditorModal]) and
    the properties of its outline round trip.

    JavaScript strings are sequences of UTF-16 code units; the regular
    expressions of the source carry no [u] flag, so they consume one code
    unit at a time.  A string is therefore a list of code units here, and a
    code unit is a number. *)

From Stdlib Require Import NArith Ascii String Decimal DecimalNat.
From stdpp Require Import base option list sorting gmap.

Local Open Scope N_scope.
Local Open Scope nat_scope.

(** ** Strings *)

Abbreviation char := N (only parsing).
Abbreviation str := (list N) (only parsing).

(** An ASCII literal as a sequence of code units. *)
Definition lit (s : string) : str := map N_of_ascii (list_ascii_of_string s).

Definition ch_nl : char := 10%N.
Definition ch_space : char := 32%N.
Definition ch_hash : char := 35%N.
Definition ch_pipe : char := 124%N.

(** ECMAScript [LineTerminator]: LF, CR, LS, PS. *)
Definition is_line_terminator (c : char) : bool :=
  bool_decide (c ∈ [10; 13; 8232; 8233]%N).

(** ECMAScript [WhiteSpace] (TAB, VT, FF, ZWNBSP and the space separators)
    together with [LineTerminator]: the class [\s] of regular expressions and
    the characters removed by [String.prototype.trim]. *)
Definition is_space (c : char) : bool :=
  bool_decide (c ∈ [9; 10; 11; 12; 13; 32; 160; 5760; 8232; 8233; 8239; 8287;
                    12288; 65279]%N)
  || ((8192 <=? c)%N && (c <=? 8202)%N).

Definition is_digit (c : char) : bool := (48 <=? c)%N && (c <=? 57)%N.

(** [String.prototype.trim]. *)
Fixpoint trim_start (s : str) : str :=
  match s with
  | c :: s' => if is_space c then trim_start s' else s
  | [] => []
  end.

Definition trim (s : str) : str := reverse (trim_start (reverse (trim_start s))).

(** [s.split('\n')]: the pieces between line feeds; never empty. *)
Fixpoint split_nl (s : str) : list str :=
  match s with
  | [] => [[]]
  | c :: s' =>
      if (c =? ch_nl)%N then [] :: split_nl s'
      else match split_nl s' with
           | l :: ls => (c :: l) :: ls
           | [] => [[c]]
           end
  end.

(** [a.join('\n')]. *)
Fixpoint join_nl (ls : list str) : str :=
  match ls with
  | [] => []
  | [l] => l
  | l :: ls' => l ++ ch_nl :: join_nl ls'
  end.

(** ** Regular expressions

    The fragment of ECMAScript patterns used by the source, with the
    backtracking matcher of the language definition: a matcher takes the
    rest of the pattern as a continuation, a greedy quantifier first tries
    one more repetition and falls back to the continuation, and the
    alternatives of a disjunction are tried from left to right. *)

Inductive atom :=
| AChar (c : char)  (* a literal character *)
| ASpace            (* \s *)
| ADigit            (* \d *)
| ADot.             (* .  *)

Definition atom_ok (a : atom) (c : char) : bool :=
  match a with
  | AChar x => (c =? x)%N
  | ASpace => is_space c
  | ADigit => is_digit c
  | ADot => negb (is_line_terminator c)
  end.

Inductive regex :=
| Bos                                            (* ^ *)
| Eos                                            (* $ *)
| Atom (a : atom)
| Rep (a : atom) (min : nat) (max : option nat)  (* a{min,max}, greedy *)
| Seq (r1 r2 : regex)
| Alt (r1 r2 : regex)
| Group (g : nat) (r : regex).                   (* capture group number g *)

Abbreviation captures := (gmap nat (list N)) (only parsing).

Definition exhausted (max : option nat) : bool :=
  match max with Some 0 => true | _ => false end.

Section matcher.
Context {R : Type}.

(** Greedy repetition of an atom at position [i], the input left being [s]. *)
Fixpoint m_rep (a : atom) (min : nat) (max : option nat) (i : nat) (s : str)
    (k : nat → str → option R) : option R :=
  let stop := match min with 0 => k i s | S _ => None end in
  match s with
  | c :: s' =>
      if atom_ok a c && negb (exhausted max) then
        match m_rep a (pred min) (pred <$> max) (S i) s' k with
        | Some r => Some r
        | None => stop
        end
      else stop
  | [] => stop
  end.
End matcher.

Fixpoint m (r : regex) (i : nat) (s : str) (c : captures)
    (k : nat → str → captures → option captures) : option captures :=
  match r with
  | Bos => match i with 0 => k i s c | S _ => None end
  | Eos => match s with [] => k i s c | _ :: _ => None end
  | Atom a =>
      match s with
      | x :: s' => if atom_ok a x then k (S i) s' c else None
      | [] => None
      end
  | Rep a min max => m_rep a min max i s (λ i' s', k i' s' c)
  | Seq r1 r2 => m r1 i s c (λ i' s' c', m r2 i' s' c' k)
  | Alt r1 r2 =>
      match m r1 i s c k with
      | Some x => Some x
      | None => m r2 i s c k
      end
  | Group g r => m r i s c (λ i' s' c', k i' s' (<[g := take (i' - i) s]> c'))
  end.

(** [s.match(r)] for a pattern without the [g] flag: the first start
    position, from the left, at which the pattern matches. *)
Fixpoint search (r : regex) (i : nat) (s : str) : option captures :=
  match m r i s ∅ (λ _ _ c, Some c) with
  | Some c => Some c
  | None =>
      match s with
      | [] => None
      | _ :: s' => search r (S i) s'
      end
  end.

Definition regex_match (r : regex) (s : str) : option captures := search r 0 s.

(** [match[g]]; every group of the patterns below takes part in every match. *)
Definition group (g : nat) (c : captures) : str := default [] (c !! g).

Declare Scope regex_scope.
Delimit Scope regex_scope with re.
Bind Scope regex_scope with regex.
Infix "·" := Seq (at level 41, right associativity) : regex_scope.
Abbreviation Plus a := (Rep a 1 None).   (* a+ *)
Abbreviation Star a := (Rep a 0 None).   (* a* *)

(** [/^(#{1,6})\s+(.+)$/] *)
Definition re_heading : regex :=
  (Bos · Group 1 (Rep (AChar ch_hash) 1 (Some 6)) · Plus ASpace · Group 2 (Plus ADot) · Eos)%re.

(** [/^H\d+\|(.+)$/]; 72 is the letter H. *)
Definition re_strip : regex :=
  (Bos · Atom (AChar 72%N) · Plus ADigit · Atom (AChar ch_pipe) · Group 1 (Plus ADot) · Eos)%re.

(** [/^(H\d+)\|/] *)
Definition re_id : regex :=
  (Bos · Group 1 (Atom (AChar 72%N) · Plus ADigit) · Atom (AChar ch_pipe))%re.

(** [/^(H\d+|NEW)\|\s*(#{1,6})\s+(.+)$/]; 78, 69, 87 are the letters
    N, E, W. *)
Definition re_edited : regex :=
  (Bos
   · Group 1 (Alt (Atom (AChar 72%N) · Plus ADigit)
                  (Atom (AChar 78%N) · Atom (AChar 69%N) · Atom (AChar 87%N)))
   · Atom (AChar ch_pipe) · Star ASpace
   · Group 2 (Rep (AChar ch_hash) 1 (Some 6)) · Plus ASpace · Group 3 (Plus ADot) · Eos)%re.

(** ** The program *)

(** [interface HeadingInfo] *)
Module HeadingInfo.
Record t := mk {
  level : nat;
  text : str;
  line : nat;
  originalLine : str;
  id : str  (* unique identifier for matching *)
}.
End HeadingInfo.
Abbreviation HeadingInfo := HeadingInfo.t.

(** The entries of [editedHeadings]: [{ id, level, text }]. *)
Module Edited.
Record t := mk { id : str; level : nat; text : str }.
End Edited.

(** A counter in a template literal: its decimal digits. *)
Fixpoint uint_chars (d : Decimal.uint) : str :=
  match d with
  | Nil => []
  | D0 d => 48%N :: uint_chars d
  | D1 d => 49%N :: uint_chars d
  | D2 d => 50%N :: uint_chars d
  | D3 d => 51%N :: uint_chars d
  | D4 d => 52%N :: uint_chars d
  | D5 d => 53%N :: uint_chars d
  | D6 d => 54%N :: uint_chars d
  | D7 d => 55%N :: uint_chars d
  | D8 d => 56%N :: uint_chars d
  | D9 d => 57%N :: uint_chars d
  end.

Definition number_to_string (n : nat) : str := uint_chars (Nat.to_uint n).

(** ['#'.repeat(level) + ' ' + text] *)
Definition heading_line (level : nat) (text : str) : str :=
  replicate level ch_hash ++ ch_space :: text.

(** *** [parseHeadings]

    The [forEach] over the lines of the document, with its [index] and the
    running [headingCounter]. *)
Fixpoint scan_lines (lines : list str) (index headingCounter : nat) : list HeadingInfo :=
  match lines with
  | [] => []
  | line :: lines' =>
      match regex_match re_heading line with
      | Some mt =>
          HeadingInfo.mk (length (group 1 mt)) (group 2 mt) index line
                         (72%N :: number_to_string (S headingCounter))
          :: scan_lines lines' (S index) (S headingCounter)
      | None => scan_lines lines' (S index) headingCounter
      end
  end.

Definition parseHeadings (content : str) : list HeadingInfo :=
  scan_lines (split_nl content) 0 0.

(** *** [onOpen]: the outline text put in the text area *)
Definition outline_line (h : HeadingInfo) : str :=
  HeadingInfo.id h ++ ch_pipe :: heading_line (HeadingInfo.level h) (HeadingInfo.text h).

Definition outlineText (headings : list HeadingInfo) : str :=
  join_nl (outline_line <$> headings).

(** [.split('\n').filter(l => l.trim())] *)
Definition nonblank_lines (s : str) : list str :=
  filter (λ l, trim l ≠ []) (split_nl s).

(** *** [enhanceWithAI]: the outline sent to the service *)
Definition strip_id (line : str) : str :=
  match regex_match re_strip line with
  | Some mt => group 1 mt
  | None => line
  end.

Definition currentOutline (textAreaValue : str) : str :=
  join_nl (strip_id <$> split_nl textAreaValue).

(** *** [matchHeadingsWithIds] *)
Definition match_step (originalLines : list str) (st : list str * nat) (enhancedLine : str)
    : list str * nat :=
  let '(result, originalIndex) := st in
  match originalLines !! originalIndex with
  | Some original =>
      match regex_match re_id original with
      | Some idMatch =>
          (result ++ [group 1 idMatch ++ ch_pipe :: enhancedLine], S originalIndex)
      | None => (result ++ [enhancedLine], originalIndex)
      end
  | None => (result ++ [lit "NEW|" ++ enhancedLine], originalIndex)
  end.

Definition matchHeadingsWithIds (originalLines enhancedLines : list str) : list str :=
  (foldl (match_step originalLines) ([], 0) enhancedLines).1.

(** *** [applyChanges] *)

Definition parse_edited_line (line : str) : option Edited.t :=
  mt ← regex_match re_edited line;
  Some (Edited.mk (group 1 mt) (length (group 2 mt)) (trim (group 3 mt))).

(** The loop filling [newHeadings] and [editMap]. *)
Definition collect_step (st : list (nat * str) * gmap (list N) (nat * list N)) (edited : Edited.t)
    : list (nat * str) * gmap (list N) (nat * list N) :=
  let '(newHeadings, editMap) := st in
  if decide (Edited.id edited = lit "NEW") then
    (newHeadings ++ [(Edited.level edited, Edited.text edited)], editMap)
  else
    (newHeadings, <[Edited.id edited := (Edited.level edited, Edited.text edited)]> editMap).

(** [lines[i]]; reading outside the array (or a hole) gives [undefined],
    which is rendered as the empty string by [join] and differs from every
    rebuilt line, as the empty string does. *)
Definition array_get (i : nat) (lines : list str) : str := default [] (lines !! i).

(** [lines[i] = v]; an index past the end extends the array with holes. *)
Definition array_set (i : nat) (v : str) (lines : list str) : list str :=
  if decide (i < length lines) then <[i := v]> lines
  else lines ++ replicate (i - length lines) [] ++ [v].

Record patch := Patch {
  p_lines : list str;
  linesToRemove : list nat;
  changesMade : bool
}.

(** The loop "update or mark for deletion". *)
Definition update_step (deletedIds : gset (list N)) (editMap : gmap (list N) (nat * list N))
    (st : patch) (heading : HeadingInfo) : patch :=
  if decide (HeadingInfo.id heading ∈ deletedIds) then
    Patch (p_lines st) (linesToRemove st ++ [HeadingInfo.line heading]) true
  else
    match editMap !! HeadingInfo.id heading with
    | Some (level, text) =>
        let newLine := heading_line level text in
        if decide (array_get (HeadingInfo.line heading) (p_lines st) ≠ newLine) then
          Patch (array_set (HeadingInfo.line heading) newLine (p_lines st))
                (linesToRemove st) true
        else st
    | None => st
    end.

(** [linesToRemove.sort((a, b) => b - a)]: [a] comes before [b] when
    [b - a] is not positive. *)
Definition before (a b : nat) : Prop := b ≤ a.

#[global] Instance before_dec : RelDecision before := λ a b, decide (b ≤ a).

Definition sort_desc (l : list nat) : list nat := merge_sort before l.

(** The notice shown at the end. *)
Inductive notice :=
| Updated (modified removed added : nat)  (* "Outline updated: ..." *)
| NoChanges.                              (* "No changes detected" *)

(** The state of [applyChanges] when it reaches its final [if]: the array
    [lines], the flag [changesMade] and the three sizes shown in the notice,
    together with the order in which the marked lines were removed. *)
Record outcome := Outcome {
  o_lines : list str;
  o_changed : bool;
  o_editMap_size : nat;
  o_deletedIds_size : nat;
  o_newHeadings_length : nat;
  o_removal_order : list nat
}.

Definition parse_edited (textAreaValue : str) : list Edited.t :=
  omap parse_edited_line (nonblank_lines textAreaValue).

Definition reconcile (headings : list HeadingInfo) (textAreaValue content : str) : outcome :=
  let lines := split_nl content in
  let editedHeadings := parse_edited textAreaValue in
  let originalIds : gset (list N) := list_to_set (HeadingInfo.id <$> headings) in
  let editedIds : gset (list N) := list_to_set (Edited.id <$> editedHeadings) in
  let '(newHeadings, editMap) := foldl collect_step ([], ∅) editedHeadings in
  let deletedIds := filter (λ i, i ∉ editedIds) originalIds in
  let st := foldl (update_step deletedIds editMap) (Patch lines [] false) headings in
  let order := sort_desc (linesToRemove st) in
  let lines := foldl (λ ls lineIndex, delete lineIndex ls) (p_lines st) order in
  let lines := lines ++ ((λ nh, heading_line nh.1 nh.2) <$> newHeadings) in
  let changesMade := changesMade st || bool_decide (0 < length newHeadings) in
  Outcome lines changesMade (size editMap) (size deletedIds) (length newHeadings) order.

(** The result is the value passed to [editor.setValue], if it is called,
    and the notice. *)
Definition applyChanges (headings : list HeadingInfo) (textAreaValue content : str)
    : option str * notice :=
  let o := reconcile headings textAreaValue content in
  if o_changed o then
    (Some (join_nl (o_lines o)),
     Updated (o_editMap_size o) (o_deletedIds_size o) (o_newHeadings_length o))
  else (None, NoChanges).

(** The document after the dialog is closed. *)
Definition document_after (content : str) (r : option str * notice) : str :=
  default content r.1.

(** ** Notions used in the statements *)

Definition newline_free (l : str) : bool := forallb (λ c, negb (c =? ch_nl)%N) l.

(** [H<integer>], the identifiers given by the extraction. *)
Definition heading_id (i : str) : bool :=
  match i with
  | c :: ds => (c =? 72)%N && bool_decide (ds ≠ []) && forallb is_digit ds
  | [] => false
  end.

(** The identifiers of the editable outline: [H<integer>] or [NEW]. *)
Definition outline_id (i : str) : bool := heading_id i || bool_decide (i = lit "NEW").

Definition no_line_terminator (s : str) : bool :=
  forallb (λ c, negb (is_line_terminator c)) s.

(** The elements of a list whose index, counted from [i], is selected. *)
Fixpoint keep_from {A} (keep : nat → bool) (i : nat) (l : list A) : list A :=
  match l with
  | [] => []
  | x :: l' => if keep i then x :: keep_from keep (S i) l' else keep_from keep (S i) l'
  end.

(** A list without the elements at the indices [D]. *)
Definition without_indices {A} (D : list nat) (l : list A) : list A :=
  keep_from (λ i, bool_decide (i ∉ D)) 0 l.

(** The last edited entry with identifier [i]: the one [editMap] keeps. *)
Definition last_edit (entries : list Edited.t) (i : str) : option Edited.t :=
  last (filter (λ e, Edited.id e = i) entries).

(** The lines rebuilt from the entries tagged [NEW], in their order. *)
Definition new_lines (entries : list Edited.t) : list str :=
  (λ e, heading_line (Edited.level e) (Edited.text e))
    <$> filter (λ e, Edited.id e = lit "NEW") entries.

(** The records whose identifier is that of no edited entry. *)
Definition missing (headings : list HeadingInfo) (entries : list Edited.t) : list HeadingInfo :=
  filter (λ h, HeadingInfo.id h ∉ Edited.id <$> entries) headings.

(** The record extracted from line [j], if any. *)
Definition heading_at (headings : list HeadingInfo) (j : nat) : option HeadingInfo :=
  find (λ h, HeadingInfo.line h =? j) headings.

(** Line [j] after the edits: rebuilt from the last entry that carries the
    identifier of its record, and left as it is when there is no record or
    no entry. *)
Definition rewrite_line (headings : list HeadingInfo) (entries : list Edited.t)
    (j : nat) (l : str) : str :=
  match heading_at headings j with
  | Some h =>
      match last_edit entries (HeadingInfo.id h) with
      | Some e => heading_line (Edited.level e) (Edited.text e)
      | None => l
      end
  | None => l
  end.

Definition rewritten (headings : list HeadingInfo) (entries : list Edited.t)
    (lines : list str) : list str :=
  imap (rewrite_line headings entries) lines.

(** Line [j] after the loop "update or mark for deletion", the lines being
    [ls] before it. *)
Definition loop_line (deletedIds : gset (list N)) (editMap : gmap (list N) (nat * list N))
    (headings : list HeadingInfo) (ls : list str) (j : nat) : option str :=
  match heading_at headings j with
  | Some h =>
      if decide (HeadingInfo.id h ∈ deletedIds) then ls !! j
      else match editMap !! HeadingInfo.id h with
           | Some (lv, tx) => Some (heading_line lv tx)
           | None => ls !! j
           end
  | None => ls !! j
  end.


(** A line that is not a heading, or a heading line in the form the
    reconciler writes: marker run, one space, text without white space
    around it. *)
Definition canonical_line (l : str) : bool :=
  match regex_match re_heading l with
  | Some mt => bool_decide (l = heading_line (length (group 1 mt)) (trim (group 2 mt)))
  | None => true
  end.

(** The edited entry that stands for a record in the outline text. *)
Definition entry_of (h : HeadingInfo) : Edited.t :=
  Edited.mk (HeadingInfo.id h) (HeadingInfo.level h) (HeadingInfo.text h).

(** What is known of a record extracted from a canonical line. *)
Definition canonical_record (h : HeadingInfo) : Prop :=
  HeadingInfo.originalLine h
  = heading_line (HeadingInfo.level h) (HeadingInfo.text h) ∧
  1 ≤ HeadingInfo.level h ≤ 6 ∧
  heading_id (HeadingInfo.id h) = true ∧
  no_line_terminator (HeadingInfo.text h) = true ∧
  HeadingInfo.text h ≠ [] ∧ trim (HeadingInfo.text h) = HeadingInfo.text h.

(** The alignment as the specification words it: line [i] of the reply
    is matched against line [i] of the outline. *)
Definition reattach_positional (originalLines enhancedLines : list str) : list str :=
  imap (λ i enhancedLine,
          match originalLines !! i with
          | Some original =>
              match regex_match re_id original with
              | Some idMatch => group 1 idMatch ++ ch_pipe :: enhancedLine
              | None => enhancedLine
              end
          | None => lit "NEW|" ++ enhancedLine
          end) enhancedLines.

(** The number of lines of a text that differ from the line at the same
    place in another. *)
Definition rewritten_lines (before after : str) : nat :=
  length (filter (λ p, p.1 ≠ p.2) (zip (split_nl before) (split_nl after))).


(** The identifiers of the original lines up to the first line that has
    none. *)
Fixpoint leading_ids (originalLines : list str) : list str :=
  match originalLines with
  | o :: os =>
      match regex_match re_id o with
      | Some idMatch => group 1 idMatch :: leading_ids os
      | None => []
      end
  | [] => []
  end.


(** *** [enhanceWithAI]: the reply of the service *)

(** A literal sequence of characters, followed by [r]. *)
Fixpoint chars (l : str) (r : regex) : regex :=
  match l with
  | [] => r
  | c :: l' => Seq (Atom (AChar c)) (chars l' r)
  end.

(** [/```markdown\n?/g] and [/```\n?/g]; 96 is the backtick. *)
Definition re_fence_markdown : regex :=
  chars (lit "```markdown") (Rep (AChar ch_nl) 0 (Some 1)).

Definition re_fence : regex := chars (lit "```") (Rep (AChar ch_nl) 0 (Some 1)).

(** The length of the match of [r] that starts at position [i], the input
    left being [s]. *)
Definition match_length (r : regex) (i : nat) (s : str) : option nat :=
  c ← m (Group 0 r) i s ∅ (λ _ _ c, Some c); Some (length (group 0 c)).

(** [s.replace(r, '')] for a pattern with the [g] flag: from left to
    right, every match is left out and the search goes on after it; [skip]
    counts the characters of the current match that are still to be left out.
    (An empty match leaves nothing out.) *)
Fixpoint remove_all (r : regex) (i skip : nat) (s : str) : str :=
  match s with
  | [] => []
  | c :: s' =>
      match skip with
      | S k => remove_all r (S i) k s'
      | 0 =>
          match match_length r i s with
          | Some (S n) => remove_all r (S i) n s'
          | _ => c :: remove_all r (S i) 0 s'
          end
      end
  end.

(** The reply, cleaned: [content.trim()], without the fences, trimmed. *)
Definition clean_reply (content : str) : str :=
  trim (remove_all re_fence 0 0 (remove_all re_fence_markdown 0 0 (trim content))).

(** The value given to the text area when the service has replied. *)
Definition enhance (textAreaValue content : str) : str :=
  let enhancedLines := nonblank_lines (clean_reply content) in
  let originalLines := nonblank_lines textAreaValue in
  join_nl (matchHeadingsWithIds originalLines enhancedLines).

(** [l] is a prefix of [s]: the literal part of a pattern matches at the
    head of [s]. *)
Fixpoint starts_with (l s : list N) : bool :=
  match l, s with
  | [], _ => true
  | c :: l', x :: s' => (x =? c)%N && starts_with l' s'
  | _ :: _, [] => false
  end.

Definition ch_backtick : char := 96%N.

(** The text holds three backticks in a row. *)
Fixpoint has_fence (s : str) : bool :=
  match s with
  | [] => false
  | _ :: s' => starts_with (lit "```") s || has_fence s'
  end.

(** A text without the line feed it may start with. *)
Definition after_nl (s : str) : str :=
  match s with
  | c :: s' => if (c =? ch_nl)%N then s' else s
  | [] => []
  end.

(** What is left of the inside of a fenced block: the label [markdown] and
    the line feed that ends the opening fence are left out. *)
Definition unfenced (body : str) : str :=
  after_nl (if starts_with (lit "markdown") body then drop 8 body else body).

(** A literal [l], then an optional line feed: the patterns of the fences. *)
Abbreviation fence l := (chars l (Rep (AChar ch_nl) 0 (Some 1))).

(** What the extraction gives for every record. *)
Definition extracted (h : HeadingInfo) : Prop :=
  heading_id (HeadingInfo.id h) = true ∧ 1 ≤ HeadingInfo.level h ∧
  HeadingInfo.text h ≠ [] ∧ no_line_terminator (HeadingInfo.text h) = true.

(** The loop "update or mark for deletion" raises [changesMade] at a
    record: its identifier is deleted, or its entry gives a line other than
    the one in [lines]. *)
Definition touches (deletedIds : gset (list N)) (editMap : gmap (list N) (nat * list N))
    (lines : list str) (h : HeadingInfo) : bool :=
  bool_decide (HeadingInfo.id h ∈ deletedIds)
  || match editMap !! HeadingInfo.id h with
     | Some (level, text) =>
         bool_decide (array_get (HeadingInfo.line h) lines ≠ heading_line level text)
     | None => false
     end.

(** A line as the reconciler rewrites it from an outline that was not
    edited: a heading line gets one space after its marker run and loses the
    white space at the end of its text; any other line stays. *)
Definition normalised_line (l : str) : str :=
  match regex_match re_heading l with
  | Some mt => heading_line (length (group 1 mt)) (trim (group 2 mt))
  | None => l
  end.

(** The edited entry read back from the outline line of a record. *)
Definition trimmed_entry (h : HeadingInfo) : Edited.t :=
  Edited.mk (HeadingInfo.id h) (HeadingInfo.level h) (trim (HeadingInfo.text h)).

(** *** [enhanceWithAI], as it runs

    The method is [async]: it runs up to the request, and its continuation
    runs when the request settles; in between, the user may type in the text
    area or call the method again.  [inFlight] (the requests that have not
    settled) and [sent] (the outlines sent so far) are not fields of the
    program: they record what it has done. *)
Inductive label := Label_Enhance | Label_Processing.
Inductive ai_notice := Notice_ConfigureKey | Notice_Enhanced | Notice_Error.

Record dialog := Dialog {
  apiKey : str;
  isProcessing : bool;
  aiButton_disabled : bool;
  aiButton_text : label;
  textArea_value : str;
  notices : list ai_notice;
  inFlight : nat;
  sent : list str
}.

(** The dialog when [onOpen] returns: the button is disabled when there is
    no key. *)
Definition opened (key outline : str) : dialog :=
  Dialog key false (bool_decide (key = [])) Label_Enhance outline [] 0 [].

(** [enhanceWithAI()], up to the [await]. *)
Definition enhanceWithAI_call (d : dialog) : dialog :=
  if decide (apiKey d = []) then
    Dialog (apiKey d) (isProcessing d) (aiButton_disabled d) (aiButton_text d)
           (textArea_value d) (notices d ++ [Notice_ConfigureKey]) (inFlight d) (sent d)
  else if isProcessing d then d
  else
    Dialog (apiKey d) true true Label_Processing (textArea_value d) (notices d)
           (S (inFlight d)) (sent d ++ [currentOutline (textArea_value d)]).

(** The rest of [enhanceWithAI], when the request has settled: with the
    content of the reply, or with an error (a failed request, or a reply
    without the expected fields), and then the [finally] block. *)
Definition enhanceWithAI_settled (reply : option str) (d : dialog) : dialog :=
  match reply with
  | Some content =>
      Dialog (apiKey d) false false Label_Enhance (enhance (textArea_value d) content)
             (notices d ++ [Notice_Enhanced]) (pred (inFlight d)) (sent d)
  | None =>
      Dialog (apiKey d) false false Label_Enhance (textArea_value d)
             (notices d ++ [Notice_Error]) (pred (inFlight d)) (sent d)
  end.

Inductive event :=
| Call                          (* [enhanceWithAI] is called *)
| Type_text (value : str)       (* the user edits the text area *)
| Settle (reply : option str).  (* a request in flight settles *)

(** A request settles only if one is in flight. *)
Definition step (d : dialog) (e : event) : dialog :=
  match e with
  | Call => enhanceWithAI_call d
  | Type_text value =>
      Dialog (apiKey d) (isProcessing d) (aiButton_disabled d) (aiButton_text d)
             value (notices d) (inFlight d) (sent d)
  | Settle reply =>
      match inFlight d with
      | 0 => d
      | S _ => enhanceWithAI_settled reply d
      end
  end.

Definition run (d : dialog) (events : list event) : dialog := foldl step d events.

(** What holds of the dialog between events. *)
Definition settled_or_waiting (d : dialog) : Prop :=
  inFlight d = (if isProcessing d then 1 else 0) ∧
  aiButton_disabled d = (bool_decide (apiKey d = []) || isProcessing d) ∧
  aiButton_text d = (if isProcessing d then Label_Processing else Label_Enhance) ∧
  (apiKey d = [] → isProcessing d = false ∧ sent d = []).

(** The text the user has typed last, starting from [value]. *)
Definition typed (value : str) (events : list event) : str :=
  foldl (λ v e, match e with Type_text v' => v' | _ => v end) value events.

(** * Properties *)

(** ** Strings *)

Lemma trim_start_length s : length (trim_start s) ≤ length s.
Proof. induction s as [|c s IH]; simpl; [lia|]. destruct (is_space c); simpl; lia. Qed.

Lemma trim_length s : length (trim s) ≤ length s.
Proof.
  unfold trim. rewrite length_reverse.
  etrans; [apply trim_start_length|]. rewrite length_reverse. apply trim_start_length.
Qed.

Lemma trim_start_nonblank a c b :
  is_space c = false → trim_start (a ++ c :: b) ≠ [].
Proof.
  intros Hc. induction a as [|x a IH]; simpl.
  - by rewrite Hc.
  - by destruct (is_space x).
Qed.

Lemma trim_start_spaces w s :
  forallb is_space w = true → trim_start (w ++ s) = trim_start s.
Proof.
  induction w as [|c w IH]; [done|]. simpl. intros [Hc Hw]%andb_prop.
  rewrite Hc. auto.
Qed.

Lemma forallb_reverse {A} (P : A → bool) l : forallb P (reverse l) = forallb P l.
Proof.
  induction l as [|x l IH]; [done|].
  rewrite reverse_cons, forallb_app, IH. simpl. by rewrite andb_true_r, andb_comm.
Qed.

(** What [trim] leaves does not start with white space. *)
Lemma trim_fixed s : trim s = s → s ≠ [] →
  ∃ c, head s = Some c ∧ is_space c = false.
Proof.
  intros Ht Hs. destruct s as [|c s]; [done|]. exists c. split; [done|].
  destruct (is_space c) eqn:Hc; [|done].
  assert (length (trim (c :: s)) ≤ length s); [|rewrite Ht in *; simpl in *; lia].
  unfold trim. rewrite length_reverse. etrans; [apply trim_start_length|].
  rewrite length_reverse. simpl. rewrite Hc. apply trim_start_length.
Qed.

(** ** Lines *)

Lemma split_nl_free l : newline_free l = true → split_nl l = [l].
Proof.
  induction l as [|c l IH]; [done|]. simpl. intros [Hc Hl]%andb_prop.
  destruct (c =? ch_nl)%N; [done|]. by rewrite IH.
Qed.

Lemma split_nl_app l s :
  newline_free l = true → split_nl (l ++ ch_nl :: s) = l :: split_nl s.
Proof.
  induction l as [|c l IH]; [done|]. simpl. intros [Hc Hl]%andb_prop.
  destruct (c =? ch_nl)%N; [done|]. by rewrite IH.
Qed.

Lemma split_join ls :
  forallb newline_free ls = true → ls ≠ [] → split_nl (join_nl ls) = ls.
Proof.
  induction ls as [|l ls IH]; [done|]. simpl. intros [Hl Hls]%andb_prop _.
  destruct ls as [|l' ls]; [by apply split_nl_free|].
  rewrite split_nl_app by done. f_equal. by apply IH.
Qed.

Lemma join_split s : join_nl (split_nl s) = s.
Proof.
  induction s as [|c s IH]; [done|]. simpl.
  destruct (c =? ch_nl)%N eqn:Hc.
  - apply N.eqb_eq in Hc as ->. destruct (split_nl s) eqn:E; simpl in *; by subst.
  - destruct (split_nl s) as [|l [|l' ls]] eqn:E; simpl in *; by subst.
Qed.

(** The non-blank lines of a text made of lines. *)
Lemma nonblank_lines_join ls :
  forallb newline_free ls = true →
  nonblank_lines (join_nl ls) = filter (λ l, trim l ≠ []) ls.
Proof.
  intros Hls. unfold nonblank_lines. destruct ls as [|l ls]; [done|].
  by rewrite split_join.
Qed.

(** ** The matcher *)

Section m_rep.
Context {R : Type}.
Implicit Types (k : nat → str → option R).

(** A greedy repetition that can take all of [w] and no more, and after
    which the rest of the pattern matches, takes all of [w]. *)
Lemma m_rep_munch a min max i w s k r :
  forallb (atom_ok a) w = true →
  match s with c :: _ => atom_ok a c = false | [] => True end →
  min ≤ length w →
  (∀ n, max = Some n → length w ≤ n) →
  k (i + length w) s = Some r →
  m_rep a min max i (w ++ s) k = Some r.
Proof.
  revert min max i. induction w as [|c w IH]; intros min max i Hw Hs Hmin Hmax Hk.
  - simpl in *. assert (min = 0) as -> by lia. rewrite Nat.add_0_r in Hk.
    destruct s as [|c s]; simpl; [done|]. by rewrite Hs.
  - simpl in Hw. apply andb_prop in Hw as [Hc Hw]. simpl. rewrite Hc.
    assert (exhausted max = false) as ->.
    { destruct max as [[|n]|]; try done. specialize (Hmax 0 eq_refl). simpl in Hmax. lia. }
    simpl. rewrite (IH (pred min) (pred <$> max) (S i)); [done|done|done| | |].
    + simpl in Hmin. lia.
    + intros n Hn. destruct max as [m'|]; [|done]. simplify_eq/=.
      specialize (Hmax m' eq_refl). simpl in Hmax. lia.
    + rewrite <-Hk. f_equal. simpl. lia.
Qed.

(** Whatever a repetition returns comes from its continuation, after a
    run of admissible characters of an admissible length. *)
Lemma m_rep_inv a min max i s k r :
  m_rep a min max i s k = Some r →
  ∃ w s', s = w ++ s' ∧ forallb (atom_ok a) w = true ∧ min ≤ length w ∧
          (∀ n, max = Some n → length w ≤ n) ∧ k (i + length w) s' = Some r.
Proof.
  revert min max i. induction s as [|c s IH]; intros min max i H.
  - simpl in H. destruct min; [|done]. exists [], []. rewrite Nat.add_0_r.
    repeat split; try done; simpl; lia.
  - simpl in H.
    assert (match min with 0 => k i (c :: s) | S _ => None end = Some r →
            ∃ w s', c :: s = w ++ s' ∧ forallb (atom_ok a) w = true ∧ min ≤ length w ∧
              (∀ n, max = Some n → length w ≤ n) ∧ k (i + length w) s' = Some r) as Hstop.
    { destruct min; [|done]. intros Hk. exists [], (c :: s). rewrite Nat.add_0_r.
      repeat split; try done; simpl; lia. }
    destruct (atom_ok a c && negb (exhausted max)) eqn:Hc; [|auto].
    destruct (m_rep a (pred min) (pred <$> max) (S i) s k) as [r'|] eqn:Hrec; [|auto].
    simplify_eq. apply andb_prop in Hc as [Hc Hmax].
    apply IH in Hrec as (w & s' & -> & Hw & Hmin & Hm & Hk).
    exists (c :: w), s'. simpl. rewrite Hc, Hw. repeat split; try done.
    + lia.
    + intros n ->. destruct n; [done|]. specialize (Hm n eq_refl). lia.
    + rewrite <-Hk. f_equal. lia.
Qed.
End m_rep.

(** A pattern that starts with [^] matches at the first position or
    nowhere. *)
Lemma search_bos r i s : search (Bos · r) (S i) s = None.
Proof. revert i. induction s as [|c s IH]; intros i; simpl; [done|apply IH]. Qed.

Lemma regex_match_bos r s :
  regex_match (Bos · r) s = m r 0 s ∅ (λ _ _ c, Some c).
Proof.
  unfold regex_match. destruct s as [|c s]; simpl.
  - by destruct (m r 0 [] ∅ _).
  - rewrite search_bos. by destruct (m r 0 (c :: s) ∅ _).
Qed.

(** A run of one character. *)
Lemma forallb_char_replicate c w :
  forallb (λ x, (x =? c)%N) w = true → w = replicate (length w) c.
Proof.
  induction w as [|x w IH]; [done|]. simpl. intros [Hx Hw]%andb_prop.
  apply N.eqb_eq in Hx as ->. f_equal. auto.
Qed.

Lemma forallb_replicate {A} (P : A → bool) n x : P x = true → forallb P (replicate n x) = true.
Proof. intros Hx. induction n; simpl; [done|]. by rewrite Hx. Qed.

Lemma take_span {A} i (w s : list A) : take (i + length w - i) (w ++ s) = w.
Proof. replace (i + length w - i) with (length w) by lia. apply take_app_length. Qed.

Lemma take_span_all {A} i (w : list A) : take (i + length w - i) w = w.
Proof. apply take_ge. lia. Qed.

Lemma group_insert_eq g v (c : gmap nat (list N)) : group g (<[g:=v]> c) = v.
Proof. unfold group. by rewrite lookup_insert_eq. Qed.

Lemma group_insert_ne g g' v (c : gmap nat (list N)) :
  g ≠ g' → group g' (<[g:=v]> c) = group g' c.
Proof. intros. unfold group. by rewrite lookup_insert_ne. Qed.

(** *** [/^(#{1,6})\s+(.+)$/] *)

Lemma re_heading_inv l mt :
  regex_match re_heading l = Some mt →
  ∃ n ws txt,
    l = replicate n ch_hash ++ ws ++ txt ∧ 1 ≤ n ≤ 6 ∧
    ws ≠ [] ∧ forallb is_space ws = true ∧
    txt ≠ [] ∧ forallb (λ c, negb (is_line_terminator c)) txt = true ∧
    group 1 mt = replicate n ch_hash ∧ group 2 mt = txt.
Proof.
  unfold re_heading. rewrite regex_match_bos. cbn [m]. intros H.
  apply m_rep_inv in H as (w1 & s1 & -> & Hw1 & Hmin1 & Hmax1 & H).
  apply m_rep_inv in H as (w2 & s2 & -> & Hw2 & Hmin2 & _ & H).
  apply m_rep_inv in H as (w3 & s3 & -> & Hw3 & Hmin3 & _ & H).
  destruct s3; [|done]. rewrite !take_span in H. simplify_eq.
  apply forallb_char_replicate in Hw1. specialize (Hmax1 6 eq_refl).
  exists (length w1), w2, w3. rewrite app_nil_r, <-Hw1.
  rewrite group_insert_eq, group_insert_ne, group_insert_eq by done.
  repeat split; try done; try lia.
  - by destruct w2; [simpl in *; lia|].
  - by destruct w3; [simpl in *; lia|].
Qed.

(** A line made of one to six markers, white space, and a text that does
    not start with white space and has no line terminator, is a heading of
    that level with that text. *)
Lemma re_heading_match n ws c txt :
  1 ≤ n ≤ 6 → ws ≠ [] → forallb is_space ws = true → is_space c = false →
  forallb (λ c, negb (is_line_terminator c)) (c :: txt) = true →
  regex_match re_heading (replicate n ch_hash ++ ws ++ c :: txt)
  = Some (<[2 := c :: txt]> (<[1 := replicate n ch_hash]> ∅)).
Proof.
  intros Hn Hws Hsp Hc Htxt. unfold re_heading. rewrite regex_match_bos. cbn [m].
  apply m_rep_munch.
  { by apply forallb_replicate. }
  { destruct ws as [|x ws]; [done|]. simpl in *. apply andb_prop in Hsp as [Hx _].
    apply N.eqb_neq. intros ->. by vm_compute in Hx. }
  { rewrite length_replicate. lia. }
  { rewrite length_replicate. intros ? [= <-]. lia. }
  apply m_rep_munch; [done|done|by destruct ws; simpl; [|lia]|done|].
  rewrite <-(app_nil_r (c :: txt)) at 1.
  apply m_rep_munch; [done|done|simpl; lia|done|].
  by rewrite take_span, take_span_all.
Qed.

(** *** [/^(H\d+|NEW)\|\s*(#{1,6})\s+(.+)$/] *)

Lemma space_not_hash x : is_space x = true → (x =? ch_hash)%N = false.
Proof. intros Hx. apply N.eqb_neq. intros ->. by vm_compute in Hx. Qed.

Lemma re_edited_tail i0 (c0 : gmap nat (list N)) w0 n w1 c txt :
  forallb is_space w0 = true → 1 ≤ n ≤ 6 →
  w1 ≠ [] → forallb is_space w1 = true →
  is_space c = false → no_line_terminator (c :: txt) = true →
  m_rep ASpace 0 None i0 (w0 ++ replicate n ch_hash ++ w1 ++ c :: txt)
    (λ i1 s1, m_rep (AChar ch_hash) 1 (Some 6) i1 s1
      (λ i2 s2, m_rep ASpace 1 None i2 s2
        (λ i3 s3, m_rep ADot 1 None i3 s3
          (λ i4 s4, match s4 with
                    | [] => Some (<[3:=take (i4 - i3) s3]> (<[2:=take (i2 - i1) s1]> c0))
                    | _ :: _ => None
                    end))))
  = Some (<[3 := c :: txt]> (<[2 := replicate n ch_hash]> c0)).
Proof.
  intros Hw0 Hn Hw1 Hsp Hc Htxt.
  apply m_rep_munch; [done| |lia|done|].
  { destruct n; [lia|]. done. }
  apply m_rep_munch.
  { by apply forallb_replicate. }
  { destruct w1 as [|x w1]; [done|]. simpl in *. apply andb_prop in Hsp as [Hx _].
    by apply space_not_hash. }
  { rewrite length_replicate. lia. }
  { rewrite length_replicate. intros ? [= <-]. lia. }
  apply m_rep_munch; [done|done|by destruct w1; simpl; [|lia]|done|].
  rewrite <-(app_nil_r (c :: txt)) at 1.
  apply m_rep_munch; [done|done|simpl; lia|done|].
  by rewrite take_span, take_span_all.
Qed.

Lemma re_edited_match i w0 n w1 c txt :
  outline_id i = true → forallb is_space w0 = true → 1 ≤ n ≤ 6 →
  w1 ≠ [] → forallb is_space w1 = true →
  is_space c = false → no_line_terminator (c :: txt) = true →
  regex_match re_edited (i ++ ch_pipe :: w0 ++ replicate n ch_hash ++ w1 ++ c :: txt)
  = Some (<[3 := c :: txt]> (<[2 := replicate n ch_hash]> (<[1 := i]> ∅))).
Proof.
  intros Hi Hw0 Hn Hw1 Hsp Hc Htxt. unfold re_edited. rewrite regex_match_bos.
  apply orb_prop in Hi as [Hi|Hi].
  - destruct i as [|h ds]; [done|]. simpl in Hi.
    apply andb_prop in Hi as [[->%N.eqb_eq Hne%bool_decide_eq_true_1]%andb_prop Hds].
    cbn [m app atom_ok N.eqb Pos.eqb].
    erewrite m_rep_munch; [reflexivity|done|done|by destruct ds; simpl; [|lia]|done|].
    cbn beta iota. rewrite N.eqb_refl.
    change (72%N :: ds ++ ?s) with ((72%N :: ds) ++ s).
    replace (1 + length ds - 0) with (0 + length (72%N :: ds) - 0) by (simpl; lia).
    rewrite take_span. by apply re_edited_tail.
  - apply bool_decide_eq_true_1 in Hi as ->.
    change (lit "NEW") with [78%N; 69%N; 87%N].
    cbn [m app atom_ok N.eqb Pos.eqb]. rewrite N.eqb_refl.
    replace (3 - 0) with 3 by done. cbn [take].
    by apply re_edited_tail.
Qed.

(** The reconciler reads a line [<id>|<ws><marker-run><ws><text>]. *)
Lemma parse_edited_line_match i w0 n w1 c txt :
  outline_id i = true → forallb is_space w0 = true → 1 ≤ n ≤ 6 →
  w1 ≠ [] → forallb is_space w1 = true →
  is_space c = false → no_line_terminator (c :: txt) = true →
  parse_edited_line (i ++ ch_pipe :: w0 ++ replicate n ch_hash ++ w1 ++ c :: txt)
  = Some (Edited.mk i n (trim (c :: txt))).
Proof.
  intros. unfold parse_edited_line. rewrite re_edited_match by done. simpl.
  rewrite group_insert_eq, !group_insert_ne, !group_insert_eq by done.
  rewrite group_insert_ne, group_insert_eq by done.
  by rewrite length_replicate.
Qed.

Lemma trim_app_spaces c t w :
  is_space c = false → forallb is_space w = true →
  trim ((c :: t) ++ w) = trim (c :: t).
Proof.
  intros Hc Hw. unfold trim. simpl. rewrite Hc.
  change (c :: t ++ w) with ((c :: t) ++ w).
  rewrite reverse_app, trim_start_spaces; [done|by rewrite forallb_reverse].
Qed.

(** ** Decimal numerals *)

Lemma uint_chars_digits d : forallb is_digit (uint_chars d) = true.
Proof. induction d; simpl; by rewrite ?IHd. Qed.

Lemma uint_chars_inj d d' : uint_chars d = uint_chars d' → d = d'.
Proof.
  revert d'. induction d; intros [] H; simpl in *; try done;
    injection H as H; f_equal; auto.
Qed.

Lemma number_to_string_digits n : forallb is_digit (number_to_string n) = true.
Proof. apply uint_chars_digits. Qed.

Lemma number_to_string_inj n n' : number_to_string n = number_to_string n' → n = n'.
Proof. intros H%uint_chars_inj. by apply Unsigned.to_uint_inj. Qed.

Lemma number_to_string_nonempty n : number_to_string n ≠ [].
Proof.
  unfold number_to_string. intros H.
  assert (Nat.to_uint n = Nil) as Hn by (by destruct (Nat.to_uint n)).
  pose proof (Unsigned.of_to n) as E. rewrite Hn in E. simpl in E. subst n.
  by vm_compute in Hn.
Qed.

Lemma heading_id_number n : heading_id (72%N :: number_to_string n) = true.
Proof.
  simpl. rewrite number_to_string_digits, andb_true_r.
  apply bool_decide_eq_true_2, number_to_string_nonempty.
Qed.

Lemma heading_id_not_NEW i : heading_id i = true → i ≠ lit "NEW".
Proof. intros H ->. by vm_compute in H. Qed.

Lemma heading_id_outline_id i : heading_id i = true → outline_id i = true.
Proof. unfold outline_id. by intros ->. Qed.

(** ** Extraction *)

Lemma scan_lines_elem ls i c h :
  h ∈ scan_lines ls i c →
  i ≤ HeadingInfo.line h ∧
  ls !! (HeadingInfo.line h - i) = Some (HeadingInfo.originalLine h) ∧
  (∃ mt, regex_match re_heading (HeadingInfo.originalLine h) = Some mt ∧
         HeadingInfo.level h = length (group 1 mt) ∧ HeadingInfo.text h = group 2 mt) ∧
  heading_id (HeadingInfo.id h) = true.
Proof.
  revert i c. induction ls as [|l ls IH]; intros i c; simpl; [by intros ?%elem_of_nil|].
  assert (h ∈ scan_lines ls (S i) (S c) ∨ h ∈ scan_lines ls (S i) c →
          i ≤ HeadingInfo.line h ∧
          (l :: ls) !! (HeadingInfo.line h - i) = Some (HeadingInfo.originalLine h) ∧
          (∃ mt, regex_match re_heading (HeadingInfo.originalLine h) = Some mt ∧
                 HeadingInfo.level h = length (group 1 mt) ∧ HeadingInfo.text h = group 2 mt) ∧
          heading_id (HeadingInfo.id h) = true) as Htl.
  { intros [H|H]; apply IH in H as (Hi & Hl & Hm & Hid);
      (split; [lia|split; [|done]]);
      by replace (HeadingInfo.line h - i) with (S (HeadingInfo.line h - S i)) by lia. }
  destruct (regex_match re_heading l) as [mt|] eqn:Hl; [|by auto].
  intros [->|H]%elem_of_cons; [|by auto]. simpl.
  rewrite Nat.sub_diag. repeat split; try done; [by exists mt|].
  apply heading_id_number.
Qed.

Lemma scan_lines_sorted ls i c :
  StronglySorted lt (HeadingInfo.line <$> scan_lines ls i c).
Proof.
  revert i c. induction ls as [|l ls IH]; intros i c; simpl; [constructor|].
  destruct (regex_match re_heading l); [|done]. simpl. constructor; [done|].
  apply Forall_forall. intros j (h & -> & Hh)%list_elem_of_fmap.
  apply scan_lines_elem in Hh. lia.
Qed.

Lemma scan_lines_ids ls i c :
  HeadingInfo.id <$> scan_lines ls i c
  = (λ k, 72%N :: number_to_string k) <$> seq (S c) (length (scan_lines ls i c)).
Proof.
  revert i c. induction ls as [|l ls IH]; intros i c; simpl; [done|].
  destruct (regex_match re_heading l); [|done]. simpl. by rewrite IH.
Qed.

Lemma scan_lines_NoDup_id ls i c : NoDup (HeadingInfo.id <$> scan_lines ls i c).
Proof.
  rewrite scan_lines_ids.
  assert (Inj (=) (=) (λ k, 72%N :: number_to_string k)).
  { intros k k' [= H]. by apply number_to_string_inj. }
  apply (NoDup_fmap_2 _), NoDup_seq.
Qed.

Lemma StronglySorted_lt_NoDup l : StronglySorted lt l → NoDup l.
Proof.
  induction 1 as [|x l Hl IH Hx]; constructor; [|done].
  intros Hin. rewrite Forall_forall in Hx. apply Hx in Hin. lia.
Qed.

(** The records of one extraction: their lines are those of the document,
    in increasing order, and their identifiers are distinct. *)
Lemma parseHeadings_elem content h :
  h ∈ parseHeadings content →
  split_nl content !! HeadingInfo.line h = Some (HeadingInfo.originalLine h) ∧
  (∃ mt, regex_match re_heading (HeadingInfo.originalLine h) = Some mt ∧
         HeadingInfo.level h = length (group 1 mt) ∧ HeadingInfo.text h = group 2 mt) ∧
  heading_id (HeadingInfo.id h) = true.
Proof.
  intros (_ & H & ?)%scan_lines_elem. by rewrite Nat.sub_0_r in H.
Qed.

(** ** Removing lines *)

Section keep_from.
Context {A : Type}.
Implicit Types (l : list A) (keep : nat → bool).

Lemma keep_from_ext keep1 keep2 i l :
  (∀ j, i ≤ j < i + length l → keep1 j = keep2 j) →
  keep_from keep1 i l = keep_from keep2 i l.
Proof.
  revert i. induction l as [|x l IH]; intros i H; simpl; [done|].
  rewrite (H i) by (simpl; lia). rewrite (IH (S i)); [done|].
  intros j Hj. apply H. simpl. lia.
Qed.

Lemma keep_from_all keep i l :
  (∀ j, i ≤ j → keep j = true) → keep_from keep i l = l.
Proof.
  revert i. induction l as [|x l IH]; intros i H; simpl; [done|].
  rewrite H by lia. f_equal. apply IH. intros j Hj. apply H. lia.
Qed.

Lemma keep_from_delete keep i j l :
  (∀ x, i + j ≤ x → keep x = true) →
  keep_from keep i (delete j l)
  = keep_from (λ x, keep x && negb (x =? i + j)) i l.
Proof.
  revert i j. induction l as [|y l IH]; intros i j H; [done|].
  destruct j as [|j]; simpl.
  - rewrite Nat.add_0_r, Nat.eqb_refl, andb_false_r.
    rewrite keep_from_all by (intros; apply H; lia).
    symmetry. apply keep_from_all. intros x Hx. rewrite H by lia.
    simpl. apply negb_true_iff, Nat.eqb_neq. lia.
  - replace (i =? i + S j) with false by (symmetry; apply Nat.eqb_neq; lia).
    rewrite andb_true_r. rewrite (IH (S i) j) by (intros; apply H; lia).
    replace (S i + j) with (i + S j) by lia. done.
Qed.

(** Removing the lines of an increasing list of indices, last index
    first, removes exactly the lines at these indices. *)
Lemma foldl_delete_desc (D : list nat) l :
  StronglySorted lt D →
  foldl (λ ls j, delete j ls) l (reverse D) = without_indices D l.
Proof.
  revert l. induction D as [|j D IH] using rev_ind; intros l HD.
  - symmetry. by apply keep_from_all.
  - rewrite reverse_snoc. simpl.
    apply StronglySorted_app in HD as (Hlt & HD & _).
    rewrite IH by done. unfold without_indices.
    rewrite (keep_from_delete _ 0 j).
    + apply keep_from_ext. intros x _. simpl.
      destruct (Nat.eqb_spec x j) as [->|Hne].
      * rewrite andb_false_r. symmetry. apply bool_decide_eq_false_2.
        intros H. apply H, elem_of_app. right. by apply list_elem_of_singleton.
      * rewrite andb_true_r. apply bool_decide_ext.
        rewrite elem_of_app, list_elem_of_singleton. tauto.
    + intros x Hx. apply bool_decide_eq_true_2. intros Hin.
      assert (x < j); [|lia]. apply Hlt; [done|]. by apply list_elem_of_singleton.
Qed.
End keep_from.

#[global] Instance before_trans : Transitive before.
Proof. unfold before. intros x y z ??. lia. Qed.

#[global] Instance before_antisymm : AntiSymm (=) before.
Proof. unfold before. intros x y ??. lia. Qed.

#[global] Instance before_total : Total before.
Proof. unfold before. intros x y. lia. Qed.

(** Sorting an increasing list of indices in descending order reverses it. *)
Lemma sort_desc_increasing D : StronglySorted lt D → sort_desc D = reverse D.
Proof.
  intros HD. apply (Sorted_unique before).
  - apply Sorted_merge_sort, _.
  - apply (Sorted_reverse (flip before)), StronglySorted_Sorted.
    induction HD as [|x l Hl IH Hx]; constructor; [done|].
    eapply Forall_impl; [done|]. unfold flip, before. intros; simpl in *; lia.
  - unfold sort_desc. by rewrite merge_sort_Permutation, reverse_Permutation.
Qed.


(** ** The edited entries *)

Lemma collect_step_news es nh em :
  (foldl collect_step (nh, em) es).1
  = nh ++ ((λ e, (Edited.level e, Edited.text e))
             <$> filter (λ e, Edited.id e = lit "NEW") es).
Proof.
  revert nh em. induction es as [|e es IH]; intros nh em; cbn [foldl].
  - simpl. by rewrite app_nil_r.
  - rewrite filter_cons. unfold collect_step at 2.
    destruct (decide (Edited.id e = lit "NEW")); rewrite IH; [|done].
    by rewrite <-(assoc_L (++)).
Qed.

(** [editMap] holds, for an identifier other than [NEW], the last entry
    that carries it. *)
Lemma collect_step_lookup (es : list Edited.t) (nh : list (nat * list N)) (em : gmap (list N) (nat * list N)) k :
  k ≠ lit "NEW" →
  (foldl collect_step (nh, em) es).2 !! k
  = match last_edit es k with
    | Some e => Some (Edited.level e, Edited.text e)
    | None => em !! k
    end.
Proof.
  intros Hk. unfold last_edit. revert nh em.
  induction es as [|e es IH]; intros nh em; cbn [foldl]; [done|].
  rewrite filter_cons. unfold collect_step at 2.
  destruct (decide (Edited.id e = lit "NEW")) as [Hnew|Hnew]; rewrite IH.
  - rewrite decide_False by congruence. done.
  - destruct (decide (Edited.id e = k)) as [<-|Hne].
    + rewrite last_cons. destruct (last _); [done|]. by rewrite lookup_insert_eq.
    + destruct (last _); [done|]. by rewrite lookup_insert_ne.
Qed.

Lemma last_edit_None es k : last_edit es k = None ↔ k ∉ Edited.id <$> es.
Proof.
  unfold last_edit. rewrite last_None. split.
  - intros H (e & -> & He)%list_elem_of_fmap.
    by apply (filter_nil_not_elem_of _ _ e) in H.
  - intros H. induction es as [|e es IH]; [done|].
    rewrite filter_cons. rewrite fmap_cons, not_elem_of_cons in H.
    destruct H as [H1 H2]. rewrite decide_False by done. auto.
Qed.

Lemma last_edit_app_ne es1 e es2 k :
  Edited.id e ≠ k → last_edit (es1 ++ e :: es2) k = last_edit (es1 ++ es2) k.
Proof.
  intros H. unfold last_edit. rewrite !filter_app, filter_cons.
  by rewrite decide_False.
Qed.

(** ** The update loop *)

Lemma heading_at_None hs j : j ∉ HeadingInfo.line <$> hs → heading_at hs j = None.
Proof.
  unfold heading_at. induction hs as [|h hs IH]; [done|].
  rewrite fmap_cons, not_elem_of_cons. intros [Hj Hhs]. simpl.
  destruct (Nat.eqb_spec (HeadingInfo.line h) j); [done|auto].
Qed.

Lemma heading_at_Some hs j h :
  heading_at hs j = Some h → h ∈ hs ∧ HeadingInfo.line h = j.
Proof.
  unfold heading_at. induction hs as [|h' hs IH]; [done|]. simpl.
  destruct (Nat.eqb_spec (HeadingInfo.line h') j) as [<-|Hne].
  - intros [= ->]. split; [left|done].
  - intros [Hin Hl]%IH. split; [by right|done].
Qed.

Lemma heading_at_cons h hs j :
  heading_at (h :: hs) j = if HeadingInfo.line h =? j then Some h else heading_at hs j.
Proof. done. Qed.

Section update_loop.
Context (del : gset (list N)) (em : gmap (list N) (nat * list N)).

Lemma array_set_in_range i v (ls : list (list N)) :
  i < length ls → array_set i v ls = <[i:=v]> ls.
Proof. intros. unfold array_set. by rewrite decide_True. Qed.

Lemma loop_line_single h ls :
  loop_line del em [h] ls (HeadingInfo.line h)
  = if decide (HeadingInfo.id h ∈ del) then ls !! HeadingInfo.line h
    else match em !! HeadingInfo.id h with
         | Some (lv, tx) => Some (heading_line lv tx)
         | None => ls !! HeadingInfo.line h
         end.
Proof. unfold loop_line. by rewrite heading_at_cons, Nat.eqb_refl. Qed.

Lemma update_step_spec h ls rm ch :
  HeadingInfo.line h < length ls →
  ∃ ls' ch',
    update_step del em (Patch ls rm ch) h
    = Patch ls' (rm ++ if decide (HeadingInfo.id h ∈ del)
                       then [HeadingInfo.line h] else []) ch' ∧
    length ls' = length ls ∧
    ∀ j, ls' !! j = if decide (j = HeadingInfo.line h)
                    then loop_line del em [h] ls j else ls !! j.
Proof.
  intros Hlt. unfold update_step. cbn [p_lines linesToRemove changesMade].
  destruct (decide (HeadingInfo.id h ∈ del)) as [Hdel|Hdel].
  { eexists _, _. split_and!; [done..|]. intros j.
    case_decide as Hj; [|done]. subst j. by rewrite loop_line_single, decide_True. }
  destruct (em !! HeadingInfo.id h) as [[lv tx]|] eqn:Hem.
  - case_decide as Hne.
    + rewrite array_set_in_range by done. eexists _, _.
      split_and!; [by rewrite app_nil_r|by rewrite length_insert|].
      intros j. case_decide as Hj.
      * subst j. rewrite loop_line_single, decide_False, Hem by done.
        by rewrite list_lookup_insert_eq.
      * by rewrite list_lookup_insert_ne.
    + eexists _, _. split_and!; [by rewrite app_nil_r|done|].
      intros j. case_decide as Hj; [|done]. subst j.
      rewrite loop_line_single, decide_False, Hem by done.
      unfold array_get in Hne.
      destruct (lookup_lt_is_Some_2 ls (HeadingInfo.line h) Hlt) as [x Hx].
      rewrite Hx in Hne |- *. simpl in Hne. by subst.
  - eexists _, _. split_and!; [by rewrite app_nil_r|done|].
    intros j. case_decide as Hj; [|done]. subst j.
    by rewrite loop_line_single, decide_False, Hem.
Qed.

Lemma update_loop hs ls rm ch :
  NoDup (HeadingInfo.line <$> hs) →
  Forall (λ h, HeadingInfo.line h < length ls) hs →
  let st := foldl (update_step del em) (Patch ls rm ch) hs in
  length (p_lines st) = length ls ∧
  linesToRemove st = rm ++ (HeadingInfo.line <$> filter (λ h, HeadingInfo.id h ∈ del) hs) ∧
  ∀ j, p_lines st !! j = loop_line del em hs ls j.
Proof.
  revert ls rm ch. induction hs as [|h hs IH]; intros ls rm ch Hnd Hin; cbn [foldl].
  { simpl. by rewrite app_nil_r. }
  rewrite fmap_cons, NoDup_cons in Hnd. destruct Hnd as [Hh Hnd].
  apply Forall_cons in Hin as [Hlt Hin].
  destruct (update_step_spec h ls rm ch Hlt) as (ls' & ch' & -> & Hlen & Hls').
  destruct (IH ls' (rm ++ (if decide (HeadingInfo.id h ∈ del)
                            then [HeadingInfo.line h] else [])) ch' Hnd)
    as (Hlen' & Hrm & Hj); [by rewrite Hlen|].
  cbv zeta. split_and!; [congruence| |].
  - rewrite Hrm, filter_cons. destruct (decide (HeadingInfo.id h ∈ del)); simpl.
    + by rewrite <-(assoc_L (++)).
    + by rewrite app_nil_r.
  - intros j. rewrite Hj. unfold loop_line. rewrite heading_at_cons.
    destruct (Nat.eqb_spec (HeadingInfo.line h) j) as [<-|Hne].
    + rewrite (heading_at_None hs) by done. rewrite Hls', decide_True by done.
      apply loop_line_single.
    + rewrite !Hls', decide_False by done. done.
Qed.
End update_loop.




Lemma filter_ext_elem {A} (P Q : A → Prop) `{!∀ x, Decision (P x), !∀ x, Decision (Q x)}
    (l : list A) :
  (∀ x, x ∈ l → P x ↔ Q x) → filter P l = filter Q l.
Proof.
  induction l as [|x l IH]; intros Hl; [done|]. rewrite !filter_cons.
  rewrite IH by (intros; apply Hl; by right).
  assert (P x ↔ Q x) as Hx by (apply Hl; left).
  destruct (decide (P x)), (decide (Q x)); tauto || done.
Qed.

Lemma StronglySorted_fmap_filter {A} (f : A → nat) (P : A → Prop)
    `{!∀ x, Decision (P x)} (l : list A) :
  StronglySorted lt (f <$> l) → StronglySorted lt (f <$> filter P l).
Proof.
  induction l as [|x l IH]; [done|]. rewrite fmap_cons, filter_cons.
  intros [Hl Hx]%StronglySorted_inv. destruct (decide (P x)); [|auto].
  rewrite fmap_cons. constructor; [auto|].
  rewrite Forall_forall in Hx |- *. intros y (z & -> & Hz)%list_elem_of_fmap.
  apply Hx, list_elem_of_fmap. exists z. split; [done|].
  by apply list_elem_of_filter in Hz as [_ ?].
Qed.


(** ** Reconciliation against the records of the document *)

Lemma deletedIds_elem (hs : list HeadingInfo) (es : list Edited.t) i :
  i ∈ filter (λ i, i ∉ (list_to_set (Edited.id <$> es) : gset (list N)))
        (list_to_set (HeadingInfo.id <$> hs) : gset (list N))
  ↔ i ∈ HeadingInfo.id <$> hs ∧ i ∉ Edited.id <$> es.
Proof. rewrite elem_of_filter, !elem_of_list_to_set. tauto. Qed.

Lemma deletedIds_missing (hs : list HeadingInfo) (es : list Edited.t) :
  filter (λ i, i ∉ (list_to_set (Edited.id <$> es) : gset (list N)))
         (list_to_set (HeadingInfo.id <$> hs) : gset (list N))
  = list_to_set (HeadingInfo.id <$> missing hs es).
Proof.
  apply set_eq. intros i. rewrite deletedIds_elem, elem_of_list_to_set.
  unfold missing. rewrite !(list_elem_of_fmap HeadingInfo.id). split.
  - intros [(h & -> & Hh) Hi]. exists h. split; [done|]. by apply list_elem_of_filter.
  - intros (h & -> & [Hi Hh]%list_elem_of_filter). split; [|done]. by exists h.
Qed.

Section reconcile_spec.
Context (hs : list HeadingInfo) (ta content : list N).
Hypothesis Hsorted : StronglySorted lt (HeadingInfo.line <$> hs).
Hypothesis Hrange : Forall (λ h, HeadingInfo.line h < length (split_nl content)) hs.
Hypothesis Hids : NoDup (HeadingInfo.id <$> hs).
Hypothesis Hnew : Forall (λ h, HeadingInfo.id h ≠ lit "NEW") hs.

Lemma reconcile_spec :
  let entries := parse_edited ta in
  let o := reconcile hs ta content in
  o_lines o = without_indices (HeadingInfo.line <$> missing hs entries)
                (rewritten hs entries (split_nl content)) ++ new_lines entries ∧
  o_removal_order o = reverse (HeadingInfo.line <$> missing hs entries) ∧
  o_deletedIds_size o = length (missing hs entries) ∧
  o_newHeadings_length o = length (new_lines entries).
Proof.
  intros entries o. subst o. unfold reconcile. fold entries.
  pose proof (collect_step_news entries [] ∅) as Hnh.
  pose proof (collect_step_lookup entries [] ∅) as Hem.
  destruct (foldl collect_step ([], ∅) entries) as [nh em]. simpl in Hnh, Hem.
  cbn [o_lines o_removal_order o_deletedIds_size o_newHeadings_length].
  set (del := filter _ _).
  assert (filter (λ h, HeadingInfo.id h ∈ del) hs = missing hs entries) as Hmiss.
  { apply filter_ext_elem. intros h Hh. unfold del. rewrite deletedIds_elem.
    split; [tauto|]. split; [|done]. apply list_elem_of_fmap. eauto. }
  destruct (update_loop del em hs (split_nl content) [] false) as (Hlen & Hrm & Hj);
    [by apply StronglySorted_lt_NoDup|done|].
  rewrite Hrm, Hmiss. simpl.
  assert (StronglySorted lt (HeadingInfo.line <$> missing hs entries)) as Hs
    by by apply StronglySorted_fmap_filter.
  rewrite sort_desc_increasing, foldl_delete_desc by done.
  split_and!; [|done| |].
  - f_equal; [f_equal|].
    + apply list_eq. intros j. rewrite Hj. unfold rewritten, loop_line.
      rewrite list_lookup_imap. unfold rewrite_line.
      destruct (heading_at hs j) as [h|] eqn:Hh; [|by destruct (_ !! j)].
      apply heading_at_Some in Hh as [Hh <-].
      rewrite Forall_forall in Hrange, Hnew.
      destruct (lookup_lt_is_Some_2 _ _ (Hrange h Hh)) as [l Hl]. rewrite Hl. simpl.
      case_decide as Hd.
      * apply deletedIds_elem in Hd as [_ Hd]. apply last_edit_None in Hd. by rewrite Hd.
      * rewrite Hem by auto. by destruct (last_edit _ _).
    + subst nh. unfold new_lines. by rewrite <-list_fmap_compose.
  - unfold del. rewrite deletedIds_missing, size_list_to_set.
    + by rewrite length_fmap.
    + eapply sublist_NoDup; [done|]. apply (fmap_sublist HeadingInfo.id), sublist_filter.
  - subst nh. unfold new_lines. by rewrite !length_fmap.
Qed.
End reconcile_spec.

(** The records of an extraction meet the conditions above. *)
Lemma parseHeadings_in_range content :
  Forall (λ h, HeadingInfo.line h < length (split_nl content)) (parseHeadings content).
Proof.
  apply Forall_forall. intros h (Hl & _)%parseHeadings_elem.
  by apply lookup_lt_Some in Hl.
Qed.

Lemma parseHeadings_not_NEW content :
  Forall (λ h, HeadingInfo.id h ≠ lit "NEW") (parseHeadings content).
Proof.
  apply Forall_forall. intros h (_ & _ & Hid)%parseHeadings_elem.
  by apply heading_id_not_NEW.
Qed.

Lemma reconcile_extracted ta content :
  let hs := parseHeadings content in
  let entries := parse_edited ta in
  let o := reconcile hs ta content in
  o_lines o = without_indices (HeadingInfo.line <$> missing hs entries)
                (rewritten hs entries (split_nl content)) ++ new_lines entries ∧
  o_removal_order o = reverse (HeadingInfo.line <$> missing hs entries) ∧
  o_deletedIds_size o = length (missing hs entries) ∧
  o_newHeadings_length o = length (new_lines entries).
Proof.
  apply reconcile_spec.
  - apply scan_lines_sorted.
  - apply parseHeadings_in_range.
  - apply scan_lines_NoDup_id.
  - apply parseHeadings_not_NEW.
Qed.


Lemma rewritten_other hs entries lines j :
  j ∉ HeadingInfo.line <$> hs → rewritten hs entries lines !! j = lines !! j.
Proof.
  intros Hj. unfold rewritten, rewrite_line. rewrite list_lookup_imap.
  rewrite heading_at_None by done. by destruct (lines !! j).
Qed.


(** ** The claims about reconciliation *)




(** ** Lenient parsing of the edited lines *)

(** C10.  The parser of the reconciler accepts any white space between
    [|] and the marker run, any white space after the marker run, and trims
    the text: a line made of an identifier ([H<integer>] or [NEW]), [|],
    white space [w0], [n] markers (1 to 6), white space [w1] (at least one
    character), a text [t] without white space around it and white space
    [w2], without line terminators from [t] on, is the entry with that
    identifier, level [n] and text [t]. *)
Theorem lenient_edited_line i w0 n w1 t w2 :
  outline_id i = true →
  forallb is_space w0 = true →
  1 ≤ n ≤ 6 →
  w1 ≠ [] → forallb is_space w1 = true →
  t ≠ [] → trim t = t →
  forallb is_space w2 = true → no_line_terminator (t ++ w2) = true →
  parse_edited_line (i ++ ch_pipe :: w0 ++ replicate n ch_hash ++ w1 ++ t ++ w2)
  = Some (Edited.mk i n t).
Proof.
  intros Hi Hw0 Hn Hne Hw1 Ht Htrim Hw2 Hlt.
  destruct (trim_fixed t Htrim Ht) as (c & Hc & Hsp).
  destruct t as [|c' t']; [done|]. simplify_eq/=.
  rewrite (parse_edited_line_match i w0 n w1 c (t' ++ w2)) by done.
  change (c :: t' ++ w2) with ((c :: t') ++ w2).
  by rewrite trim_app_spaces, Htrim.
Qed.

Lemma lenient_edited_line_witness :
  parse_edited_line (lit "H1|  ## T  ") = Some (Edited.mk (lit "H1") 2 (lit "T")).
Proof.
  apply (lenient_edited_line (lit "H1") (lit "  ") 2 (lit " ") (lit "T") (lit "  "));
    solve [reflexivity | lia | discriminate].
Defined.

(** ** The round trip of the outline text *)

Lemma no_line_terminator_newline_free s :
  no_line_terminator s = true → newline_free s = true.
Proof.
  unfold no_line_terminator, newline_free.
  induction s as [|c s IH]; [done|]. simpl. intros [Hc Hs]%andb_prop.
  rewrite IH, andb_true_r by done.
  apply negb_true_iff, N.eqb_neq. intros ->. by vm_compute in Hc.
Qed.

Lemma digits_newline_free ds : forallb is_digit ds = true → newline_free ds = true.
Proof.
  unfold newline_free.
  induction ds as [|c s IH]; [done|]. simpl. intros [Hc Hs]%andb_prop.
  rewrite IH, andb_true_r by done.
  apply negb_true_iff, N.eqb_neq. intros ->. by vm_compute in Hc.
Qed.

Lemma heading_id_newline_free i : heading_id i = true → newline_free i = true.
Proof.
  destruct i as [|c ds]; [done|]. simpl.
  intros [[->%N.eqb_eq _]%andb_prop Hds]%andb_prop.
  by rewrite digits_newline_free.
Qed.

Lemma newline_free_app a b : newline_free (a ++ b) = newline_free a && newline_free b.
Proof. apply forallb_app. Qed.

Lemma trim_nonblank c s : is_space c = false → trim (c :: s) ≠ [].
Proof.
  intros Hc. unfold trim. simpl. rewrite Hc, reverse_cons.
  intros H. apply (f_equal reverse) in H. rewrite reverse_involutive in H.
  by apply (trim_start_nonblank (reverse s) c []) in H.
Qed.

Lemma canonical_records content :
  forallb canonical_line (split_nl content) = true →
  Forall canonical_record (parseHeadings content).
Proof.
  intros Hcan. apply Forall_forall. intros h (Hl & (mt & Hmt & Hlv & Htx) & Hid)%parseHeadings_elem.
  rewrite forallb_forall in Hcan. apply list_elem_of_lookup_2, list_elem_of_In, Hcan in Hl.
  unfold canonical_line in Hl. rewrite Hmt in Hl. apply bool_decide_eq_true_1 in Hl.
  rewrite <-Hlv, <-Htx in Hl.
  apply re_heading_inv in Hmt as (n & ws & txt & E & Hn & Hws & Hsp & Htxt & Hnlt & G1 & G2).
  rewrite G1, length_replicate in Hlv. rewrite G2 in Htx.
  assert (ws ++ txt = ch_space :: trim txt) as Hws'.
  { apply (app_inv_head (replicate n ch_hash)). by rewrite <-E, Hl, Hlv, Htx. }
  pose proof (trim_length txt) as Hlen. apply (f_equal length) in Hws' as Hlen'.
  rewrite length_app in Hlen'. simpl in Hlen'.
  destruct ws as [|x [|y ws]]; [done| |simpl in Hlen'; lia].
  injection Hws' as -> Htrim.
  unfold canonical_record, heading_line. rewrite E, Hlv, Htx, <-Htrim.
  split_and!; try done; lia.
Qed.

Lemma outline_line_parse h :
  canonical_record h → parse_edited_line (outline_line h) = Some (entry_of h).
Proof.
  intros (_ & Hlv & Hid & Hnlt & Hne & Htrim). unfold outline_line, heading_line, entry_of.
  destruct (trim_fixed _ Htrim Hne) as (c & Hc & Hsp).
  destruct (HeadingInfo.text h) as [|c' t]; [done|]. simplify_eq/=.
  pose proof (parse_edited_line_match (HeadingInfo.id h) [] (HeadingInfo.level h)
                [ch_space] c t) as H.
  simpl in H. rewrite H; [by rewrite Htrim|by apply heading_id_outline_id|done..].
Qed.

Lemma outline_line_newline_free h :
  canonical_record h → newline_free (outline_line h) = true.
Proof.
  intros (_ & Hlv & Hid & Hnlt & Hne & Htrim). unfold outline_line, heading_line.
  change (?a ++ ch_pipe :: ?b ++ ch_space :: ?c) with (a ++ [ch_pipe] ++ b ++ [ch_space] ++ c).
  rewrite !newline_free_app, heading_id_newline_free by done.
  rewrite (no_line_terminator_newline_free (HeadingInfo.text h)) by done.
  unfold newline_free at 2. by rewrite forallb_replicate.
Qed.

Lemma outline_line_nonblank h : canonical_record h → trim (outline_line h) ≠ [].
Proof.
  intros (_ & _ & Hid & _). unfold outline_line.
  destruct (HeadingInfo.id h) as [|c ds]; [done|]. simpl in Hid.
  apply andb_prop in Hid as [[->%N.eqb_eq _]%andb_prop _]. by apply trim_nonblank.
Qed.

Lemma omap_cons_Some {A B} (f : A → option B) x y l :
  f x = Some y → omap f (x :: l) = y :: omap f l.
Proof. intros H. simpl. by rewrite H. Qed.

(** The outline text is read back as the entries of the records. *)
Lemma parse_outlineText hs :
  Forall canonical_record hs → parse_edited (outlineText hs) = entry_of <$> hs.
Proof.
  intros Hhs. unfold parse_edited, outlineText. rewrite nonblank_lines_join.
  - induction Hhs as [|h hs Hh Hhs IH]; [done|]. rewrite fmap_cons, filter_cons.
    rewrite decide_True by by apply outline_line_nonblank.
    rewrite (omap_cons_Some _ _ (entry_of h)) by by apply outline_line_parse.
    by rewrite IH, fmap_cons.
  - induction Hhs as [|h hs Hh Hhs IH]; [done|]. simpl.
    by rewrite outline_line_newline_free.
Qed.

Lemma last_edit_entry_of hs h :
  NoDup (HeadingInfo.id <$> hs) → h ∈ hs →
  last_edit (entry_of <$> hs) (HeadingInfo.id h) = Some (entry_of h).
Proof.
  unfold last_edit. induction hs as [|h' hs IH]; [by intros _ ?%elem_of_nil|].
  rewrite !fmap_cons, NoDup_cons, filter_cons. intros [Hnot Hnd] Hin. simpl.
  assert (∀ x, x ∈ hs → HeadingInfo.id x ≠ HeadingInfo.id h') as Hother.
  { intros x Hx E. apply Hnot. rewrite <-E. apply list_elem_of_fmap. eauto. }
  apply elem_of_cons in Hin as [->|Hin].
  - rewrite decide_True by done. rewrite last_cons.
    replace (filter _ (entry_of <$> hs)) with (@nil Edited.t); [done|].
    symmetry. clear IH Hnot Hnd. induction hs as [|x hs IH]; [done|].
    rewrite fmap_cons, filter_cons. simpl.
    rewrite decide_False by (apply Hother; left).
    apply IH. intros y Hy. apply Hother. by right.
  - rewrite decide_False by (apply not_eq_sym, Hother, Hin). auto.
Qed.

Lemma foldl_fixed {A B} (f : A → B → A) (a : A) (l : list B) :
  (∀ x, x ∈ l → f a x = a) → foldl f a l = a.
Proof.
  induction l as [|x l IH]; intros H; [done|]. simpl.
  rewrite H by left. apply IH. intros y Hy. apply H. by right.
Qed.

(** C1, amended.  For every document whose heading lines have the form
    the reconciler writes (marker run, one space, text without white space
    around it), reconciling the outline text produced from the extraction of
    the document, unmodified, against the same document reports "no changes"
    and leaves the text of the document as it is. *)
Theorem round_trip_of_canonical_document content :
  forallb canonical_line (split_nl content) = true →
  let hs := parseHeadings content in
  applyChanges hs (outlineText hs) content = (None, NoChanges) ∧
  document_after content (applyChanges hs (outlineText hs) content) = content.
Proof.
  intros Hcan hs.
  assert (applyChanges hs (outlineText hs) content = (None, NoChanges)) as ->; [|done].
  pose proof (canonical_records content Hcan) as Hrec. fold hs in Hrec.
  assert (NoDup (HeadingInfo.id <$> hs)) as Hnd by apply scan_lines_NoDup_id.
  unfold applyChanges.
  assert (o_changed (reconcile hs (outlineText hs) content) = false) as ->; [|done].
  unfold reconcile. rewrite parse_outlineText by done.
  pose proof (collect_step_news (entry_of <$> hs) [] ∅) as Hnh.
  pose proof (collect_step_lookup (entry_of <$> hs) [] ∅) as Hem.
  destruct (foldl collect_step ([], ∅) (entry_of <$> hs)) as [nh em].
  simpl in Hnh, Hem. cbn [o_changed].
  rewrite Forall_forall in Hrec.
  assert (nh = []) as ->.
  { subst nh. replace (filter _ (entry_of <$> hs)) with (@nil Edited.t); [done|].
    symmetry. clear Hem Hnd. induction hs as [|h l IH]; [done|].
    rewrite fmap_cons, filter_cons. simpl.
    destruct (Hrec h) as (_ & _ & Hid & _); [left|].
    rewrite decide_False by by apply heading_id_not_NEW.
    apply IH. intros x Hx. apply Hrec. by right. }
  rewrite foldl_fixed; [done|]. intros h Hh.
  destruct (Hrec h Hh) as (Hline & _ & Hid & _).
  unfold update_step. cbn [p_lines linesToRemove changesMade].
  rewrite decide_False.
  2:{ rewrite deletedIds_elem. intros [_ Hn]. apply Hn.
      apply list_elem_of_fmap. exists (entry_of h). split; [done|].
      apply list_elem_of_fmap. eauto. }
  rewrite Hem by by apply heading_id_not_NEW.
  rewrite last_edit_entry_of by done. simpl.
  rewrite decide_False; [done|]. intros Hne. apply Hne.
  apply parseHeadings_elem in Hh as (Hl & _). unfold array_get. by rewrite Hl.
Qed.

Lemma round_trip_of_canonical_document_witness :
  let content := lit "# A
body
## B" in
  let hs := parseHeadings content in
  applyChanges hs (outlineText hs) content = (None, NoChanges) ∧
  document_after content (applyChanges hs (outlineText hs) content) = content.
Proof.
  apply round_trip_of_canonical_document. vm_compute. reflexivity.
Defined.

(** C1 as stated fails: a heading line with two spaces after its marker
    is rewritten with one, and the operation reports a change, although the
    outline text was not touched. *)
Lemma round_trip_counterexample :
  let content := lit "#  A" in
  let hs := parseHeadings content in
  applyChanges hs (outlineText hs) content = (Some (lit "# A"), Updated 1 0 0) ∧
  document_after content (applyChanges hs (outlineText hs) content) ≠ content.
Proof. split; [by vm_compute|]. vm_compute. discriminate. Qed.

(** ** Unknown identifiers *)

Lemma span_unique (P : N → bool) w1 c1 r1 w2 c2 r2 :
  forallb P w1 = true → forallb P w2 = true → P c1 = false → P c2 = false →
  w1 ++ c1 :: r1 = w2 ++ c2 :: r2 → w1 = w2.
Proof.
  revert w2. induction w1 as [|x w1 IH]; intros [|y w2] H1 H2 Hc1 Hc2 E;
    simpl in *; simplify_eq; try done.
  - apply andb_prop in H2 as [? _]. congruence.
  - apply andb_prop in H1 as [? _]. congruence.
  - apply andb_prop in H1 as [_ ?], H2 as [_ ?]. f_equal. eauto.
Qed.

(** The identifier read from a line [H<digits>|...] is [H<digits>]. *)
Lemma parse_edited_line_id ds rest e :
  forallb is_digit ds = true →
  parse_edited_line (72%N :: ds ++ ch_pipe :: rest) = Some e →
  Edited.id e = 72%N :: ds.
Proof.
  intros Hds. unfold parse_edited_line.
  destruct (regex_match re_edited _) as [mt|] eqn:Hmt; [|done].
  simpl. intros [= <-]. simpl.
  revert Hmt. unfold re_edited. rewrite regex_match_bos.
  cbn [m app atom_ok N.eqb Pos.eqb].
  destruct (m_rep ADigit 1 None 1 _ _) as [mt'|] eqn:H; [|done]. intros [= ->].
  apply m_rep_inv in H as (w & s' & E & Hw & _ & _ & H).
  destruct s' as [|x s']; [done|].
  destruct (x =? ch_pipe)%N eqn:Hx; [|done]. apply N.eqb_eq in Hx as ->.
  apply span_unique with (P := is_digit) in E as <-; [|done..].
  apply m_rep_inv in H as (w0 & s0 & -> & _ & _ & _ & H).
  apply m_rep_inv in H as (w1 & s1 & -> & _ & _ & _ & H).
  apply m_rep_inv in H as (w2 & s2 & -> & _ & _ & _ & H).
  apply m_rep_inv in H as (w3 & s3 & -> & _ & _ & _ & H).
  destruct s3; [|done]. simplify_eq.
  rewrite !group_insert_ne, group_insert_eq by done.
  change (72%N :: ds ++ ?s) with ((72%N :: ds) ++ s).
  replace (1 + length ds - 0) with (length (72%N :: ds)) by (simpl; lia).
  apply take_app_length.
Qed.

Lemma update_loop_ext (del : gset (list N)) (em1 em2 : gmap (list N) (nat * list N)) hs st :
  (∀ h, h ∈ hs → em1 !! HeadingInfo.id h = em2 !! HeadingInfo.id h) →
  foldl (update_step del em1) st hs = foldl (update_step del em2) st hs.
Proof.
  revert st. induction hs as [|h hs IH]; intros st H; [done|]. cbn [foldl].
  replace (update_step del em1 st h) with (update_step del em2 st h).
  - apply IH. intros x Hx. apply H. by right.
  - unfold update_step. by rewrite (H h) by left.
Qed.

Lemma collect_step_NEW (es : list Edited.t) (nh : list (nat * list N))
    (em : gmap (list N) (nat * list N)) :
  (foldl collect_step (nh, em) es).2 !! lit "NEW" = em !! lit "NEW".
Proof.
  revert nh em. induction es as [|x es IH]; intros nh em; [done|]. cbn [foldl].
  unfold collect_step at 2. case_decide; rewrite IH; [done|].
  by rewrite lookup_insert_ne.
Qed.

(** An entry with an identifier that is neither [NEW] nor that of a
    record changes nothing but the size of [editMap]. *)
Lemma reconcile_unknown_entry hs ta ta' content es1 e es2 :
  parse_edited ta = es1 ++ e :: es2 → parse_edited ta' = es1 ++ es2 →
  Edited.id e ≠ lit "NEW" → Edited.id e ∉ HeadingInfo.id <$> hs →
  let o := reconcile hs ta content in
  let o' := reconcile hs ta' content in
  o_lines o = o_lines o' ∧ o_changed o = o_changed o' ∧
  o_removal_order o = o_removal_order o' ∧
  o_deletedIds_size o = o_deletedIds_size o' ∧
  o_newHeadings_length o = o_newHeadings_length o'.
Proof.
  intros Hta Hta' Hnew Hunk. unfold reconcile. rewrite Hta, Hta'.
  pose proof (collect_step_news (es1 ++ e :: es2) [] ∅) as Hnh.
  pose proof (collect_step_lookup (es1 ++ e :: es2) [] ∅) as Hem.
  pose proof (collect_step_NEW (es1 ++ e :: es2) [] ∅) as Hn.
  destruct (foldl collect_step ([], ∅) (es1 ++ e :: es2)) as [nh em].
  pose proof (collect_step_news (es1 ++ es2) [] ∅) as Hnh'.
  pose proof (collect_step_lookup (es1 ++ es2) [] ∅) as Hem'.
  pose proof (collect_step_NEW (es1 ++ es2) [] ∅) as Hn'.
  destruct (foldl collect_step ([], ∅) (es1 ++ es2)) as [nh' em'].
  simpl in Hnh, Hem, Hn, Hnh', Hem', Hn'.
  assert (nh = nh') as <-.
  { subst nh nh'. rewrite !filter_app, filter_cons. by rewrite decide_False. }
  set (del := filter _ _). set (del' := filter _ _).
  assert (del = del') as <-.
  { apply set_eq. intros i. unfold del, del'. rewrite !deletedIds_elem.
    rewrite !fmap_app, fmap_cons, !elem_of_app, elem_of_cons.
    split; intros [Hi Hni]; (split; [done|]); [tauto|].
    intros [?|[->|?]]; tauto. }
  rewrite (update_loop_ext del em em'); [done|].
  intros h Hh. destruct (decide (HeadingInfo.id h = lit "NEW")) as [E|Hne].
  - by rewrite E, Hn, Hn'.
  - rewrite Hem, Hem' by done. rewrite last_edit_app_ne; [done|].
    intros E. apply Hunk. rewrite E. apply list_elem_of_fmap. eauto.
Qed.

(** The entries read from a text given by its lines. *)
Lemma parse_edited_join ls :
  forallb newline_free ls = true →
  parse_edited (join_nl ls) = omap parse_edited_line (filter (λ l, trim l ≠ []) ls).
Proof. intros H. unfold parse_edited. by rewrite nonblank_lines_join. Qed.

(** C8 (unknown identifiers).  An edited line [H<digits>|...] whose
    identifier is that of no record changes nothing in the outcome of the
    reconciliation: with the line or without it, among the same other lines,
    [setValue] is called or not alike and with the same text, the same lines
    are removed and the same lines are appended. *)
Theorem unknown_id_is_ignored hs content ls1 ds rest ls2 :
  let unknown := 72%N :: ds ++ ch_pipe :: rest in
  forallb newline_free (ls1 ++ unknown :: ls2) = true →
  forallb is_digit ds = true →
  72%N :: ds ∉ HeadingInfo.id <$> hs →
  let ta := join_nl (ls1 ++ unknown :: ls2) in
  let ta' := join_nl (ls1 ++ ls2) in
  (applyChanges hs ta content).1 = (applyChanges hs ta' content).1 ∧
  o_lines (reconcile hs ta content) = o_lines (reconcile hs ta' content) ∧
  o_removal_order (reconcile hs ta content) = o_removal_order (reconcile hs ta' content) ∧
  o_newHeadings_length (reconcile hs ta content)
  = o_newHeadings_length (reconcile hs ta' content).
Proof.
  intros unknown Hfree Hds Hunk ta ta'.
  assert (forallb newline_free (ls1 ++ ls2) = true) as Hfree'.
  { rewrite forallb_app in Hfree |- *. simpl in Hfree.
    apply andb_prop in Hfree as [-> [_ ->]%andb_prop]. done. }
  assert (parse_edited ta = parse_edited ta' ∨
          ∃ e, Edited.id e = 72%N :: ds ∧
               parse_edited ta
               = omap parse_edited_line (filter (λ l, trim l ≠ []) ls1)
                 ++ e :: omap parse_edited_line (filter (λ l, trim l ≠ []) ls2) ∧
               parse_edited ta'
               = omap parse_edited_line (filter (λ l, trim l ≠ []) ls1)
                 ++ omap parse_edited_line (filter (λ l, trim l ≠ []) ls2)) as [E|(e & He & E & E')].
  { unfold ta, ta'. rewrite !parse_edited_join by done.
    rewrite !filter_app, filter_cons, !omap_app.
    case_decide; [|by left].
    destruct (parse_edited_line unknown) as [e|] eqn:He.
    - right. exists e. split; [by eapply parse_edited_line_id|].
      by rewrite (omap_cons_Some _ _ e).
    - left. simpl. by rewrite He. }
  { unfold applyChanges, reconcile. rewrite E. by split_and!. }
  assert (Edited.id e ≠ lit "NEW") as Hnew by (rewrite He; intros [=]).
  rewrite <-He in Hunk.
  destruct (reconcile_unknown_entry hs ta ta' content _ e _ E E' Hnew Hunk)
    as (Hl & Hc & Hr & _ & Hn).
  split_and!; try done.
  unfold applyChanges. rewrite Hc, Hl.
  destruct (o_changed (reconcile hs ta' content)); reflexivity.
Qed.

Lemma unknown_id_is_ignored_witness :
  let hs := parseHeadings (lit "# A") in
  (applyChanges hs (lit "H1|## A
H99|# Z") (lit "# A")).1
  = (applyChanges hs (lit "H1|## A") (lit "# A")).1.
Proof.
  apply (unknown_id_is_ignored (parseHeadings (lit "# A")) (lit "# A")
           [lit "H1|## A"] (lit "99") (lit "# Z") []).
  - reflexivity.
  - reflexivity.
  - vm_compute. intros H. by repeat (apply elem_of_cons in H as [H|H]; [done|]); apply elem_of_nil in H.
Defined.

(** ** Re-attaching the identifiers *)

(** C2.  [matchHeadingsWithIds] does not move past an original line
    without an [H<n>|] prefix: every later line of the reply is compared with
    that same line and emitted bare, where the positional alignment reuses
    [H2] for the third line. *)
Theorem matchHeadingsWithIds_stalls :
  let originalLines := [lit "H1|# A"; lit "## Typed"; lit "H2|## B"] in
  let enhancedLines := [lit "# X"; lit "## Y"; lit "## Z"] in
  matchHeadingsWithIds originalLines enhancedLines
  = [lit "H1|# X"; lit "## Y"; lit "## Z"] ∧
  reattach_positional originalLines enhancedLines
  = [lit "H1|# X"; lit "## Y"; lit "H2|## Z"].
Proof. by vm_compute. Qed.

(** The example of the specification: two prefixed lines and a reply of
    three lines. *)
Example matchHeadingsWithIds_example :
  matchHeadingsWithIds [lit "H1|# A"; lit "H2|## B"] [lit "# One"; lit "## Two"; lit "## Three"]
  = [lit "H1|# One"; lit "H2|## Two"; lit "NEW|## Three"].
Proof. by vm_compute. Qed.

(** When every original line carries a prefix, the alignment is the
    positional one. *)
Lemma matchHeadingsWithIds_prefixed originalLines enhancedLines :
  Forall (λ o, is_Some (regex_match re_id o)) originalLines →
  matchHeadingsWithIds originalLines enhancedLines
  = reattach_positional originalLines enhancedLines.
Proof.
  intros Hpre. unfold matchHeadingsWithIds, reattach_positional.
  set (f := λ (i : nat) (e : list N),
          match originalLines !! i with
          | Some original =>
              match regex_match re_id original with
              | Some idMatch => group 1 idMatch ++ ch_pipe :: e
              | None => e
              end
          | None => lit "NEW|" ++ e
          end).
  assert (∀ es res k,
    (foldl (match_step originalLines) (res, k) es).1 = res ++ imap (λ i, f (k + i)) es) as H.
  { induction es as [|e es IH]; intros res k; cbn [foldl].
    - simpl. by rewrite app_nil_r.
    - unfold match_step at 2.
      destruct (originalLines !! k) as [o|] eqn:Ho.
      + rewrite Forall_forall in Hpre.
        destruct (Hpre o (list_elem_of_lookup_2 _ _ _ Ho)) as [mt Hmt]. rewrite Hmt.
        rewrite IH, imap_cons, <-(assoc_L (++)). simpl. f_equal. f_equal.
        * unfold f. by rewrite Nat.add_0_r, Ho, Hmt.
        * apply imap_ext. intros i x _. simpl. f_equal. lia.
      + rewrite IH, imap_cons, <-(assoc_L (++)). simpl. f_equal. f_equal.
        * unfold f. by rewrite Nat.add_0_r, Ho.
        * apply imap_ext. intros i x _. simpl. unfold f.
          apply lookup_ge_None in Ho.
          by rewrite !(lookup_ge_None_2 originalLines) by lia. }
  rewrite H. simpl. apply imap_ext. intros i x _. done.
Qed.

(** ** The notice *)

(** The number shown as "modified" is the number of distinct identifiers
    other than [NEW] among the parsed edited entries, rewritten or not. *)
Lemma collect_step_dom (es : list Edited.t) (nh : list (nat * list N))
    (em : gmap (list N) (nat * list N)) :
  (dom (foldl collect_step (nh, em) es).2 : gset (list N))
  = dom em ∪ list_to_set (Edited.id <$> filter (λ e, Edited.id e ≠ lit "NEW") es).
Proof.
  revert nh em. induction es as [|e es IH]; intros nh em; cbn [foldl].
  - simpl. by rewrite (right_id_L ∅ (∪)).
  - unfold collect_step at 2. rewrite filter_cons.
    destruct (decide (Edited.id e = lit "NEW")) as [E|E]; rewrite IH.
    + rewrite decide_False; [done|]. by intros ?.
    + rewrite decide_True by done. rewrite dom_insert_L, fmap_cons. simpl.
      by rewrite (comm_L (∪) {[Edited.id e]} (dom em)), (assoc_L (∪)).
Qed.

Lemma modified_count hs ta content :
  o_editMap_size (reconcile hs ta content)
  = size (list_to_set (Edited.id <$> filter (λ e, Edited.id e ≠ lit "NEW") (parse_edited ta))
            : gset (list N)).
Proof.
  unfold reconcile.
  pose proof (collect_step_dom (parse_edited ta) [] ∅) as Hdom.
  destruct (foldl collect_step ([], ∅) (parse_edited ta)) as [nh em].
  simpl in *. rewrite dom_empty_L, (left_id_L ∅ (∪)) in Hdom. by rewrite <-Hdom, size_dom.
Qed.

(** C3.  In a document with two headings, editing the level of [H1] and
    keeping the line of [H2] as it is rewrites one line of the document, and
    nothing else, but the notice reports two headings as modified: the number
    shown is the size of [editMap]. *)
Theorem modified_count_includes_unchanged :
  let content := lit "# A
body
## B" in
  let edited := lit "H1|## A
H2|## B" in
  let after := lit "## A
body
## B" in
  applyChanges (parseHeadings content) edited content = (Some after, Updated 2 0 0) ∧
  rewritten_lines content after = 1.
Proof. by vm_compute. Qed.

(** ** The outline sent to the service *)

(** C4.  The pattern that strips the identifiers knows [H<n>|] only: a
    line tagged [NEW|] reaches the service with its tag. *)
Theorem currentOutline_keeps_NEW :
  currentOutline (lit "H1|# A
NEW|# C") = lit "# A
NEW|# C".
Proof. by vm_compute. Qed.

(** A line [H<digits>|<rest>] is sent as [<rest>], when the rest is not
    empty and has no line terminator. *)
Lemma strip_id_heading ds rest :
  ds ≠ [] → forallb is_digit ds = true →
  rest ≠ [] → no_line_terminator rest = true →
  strip_id (72%N :: ds ++ ch_pipe :: rest) = rest.
Proof.
  intros Hne Hds Hrest Hnlt. unfold strip_id, re_strip. rewrite regex_match_bos.
  cbn [m app atom_ok N.eqb Pos.eqb].
  erewrite m_rep_munch; [|done|done|by destruct ds; simpl; [|lia]|done|].
  2:{ cbn beta iota. rewrite N.eqb_refl. rewrite <-(app_nil_r rest) at 1.
      apply m_rep_munch; [done|done|by destruct rest; simpl; [|lia]|done|].
      reflexivity. }
  by rewrite group_insert_eq, take_span_all.
Qed.

(** No line tagged [NEW|] is stripped. *)
Lemma strip_id_NEW rest : strip_id (lit "NEW|" ++ rest) = lit "NEW|" ++ rest.
Proof.
  unfold strip_id, re_strip. rewrite regex_match_bos.
  change (lit "NEW|") with [78%N; 69%N; 87%N; 124%N]. done.
Qed.

(** ** The text of the records *)

(** The text of a record is not empty and has no line terminator. *)
Lemma parseHeadings_text content h :
  h ∈ parseHeadings content →
  HeadingInfo.text h ≠ [] ∧ no_line_terminator (HeadingInfo.text h) = true ∧
  1 ≤ HeadingInfo.level h ≤ 6.
Proof.
  intros (_ & (mt & Hmt & Hlv & Htx) & _)%parseHeadings_elem.
  apply re_heading_inv in Hmt as (n & ws & txt & _ & Hn & _ & _ & Htxt & Hnlt & G1 & G2).
  rewrite G1, length_replicate in Hlv. rewrite Htx, G2, Hlv. done.
Qed.

Lemma scan_lines_complete ls i c j l mt :
  ls !! j = Some l → regex_match re_heading l = Some mt →
  ∃ h, h ∈ scan_lines ls i c ∧ HeadingInfo.line h = i + j ∧
       HeadingInfo.level h = length (group 1 mt) ∧ HeadingInfo.text h = group 2 mt.
Proof.
  revert i c j. induction ls as [|x ls IH]; intros i c j Hj Hmt; [done|].
  destruct j as [|j]; simpl in Hj.
  - simplify_eq. simpl. rewrite Hmt. eexists. split; [left|].
    simpl. by rewrite Nat.add_0_r.
  - simpl. destruct (regex_match re_heading x).
    + destruct (IH (S i) (S c) j Hj Hmt) as (h & Hh & Hl & Hr).
      exists h. split; [by right|]. split; [lia|done].
    + destruct (IH (S i) c j Hj Hmt) as (h & Hh & Hl & Hr).
      exists h. split; [done|]. split; [lia|done].
Qed.

(** C5, amended.  The extraction takes the text of a heading as the
    pattern captures it: for a line of the document made of 1 to 6 markers,
    white space, and a content that starts with a character that is not
    white space and has no line terminator, the record of that line has the
    number of markers as level and the whole content as text.  The white
    space after the markers is not part of the text; white space at the end
    of the line is. *)
Theorem extraction_takes_content_as_matched content j n ws c t :
  split_nl content !! j = Some (replicate n ch_hash ++ ws ++ c :: t) →
  1 ≤ n ≤ 6 →
  ws ≠ [] → forallb is_space ws = true →
  is_space c = false → no_line_terminator (c :: t) = true →
  ∃ h, h ∈ parseHeadings content ∧ HeadingInfo.line h = j ∧
       HeadingInfo.level h = n ∧ HeadingInfo.text h = c :: t.
Proof.
  intros Hj Hn Hws Hsp Hc Ht.
  pose proof (re_heading_match n ws c t Hn Hws Hsp Hc Ht) as Hmt.
  destruct (scan_lines_complete _ 0 0 _ _ _ Hj Hmt) as (h & Hh & Hl & Hlv & Htx).
  exists h. split_and!; [done|done| |].
  - by rewrite Hlv, group_insert_ne, group_insert_eq, length_replicate.
  - by rewrite Htx, group_insert_eq.
Qed.

Lemma extraction_takes_content_as_matched_witness :
  ∃ h, h ∈ parseHeadings (lit "intro
##   Title  ") ∧ HeadingInfo.line h = 1 ∧
       HeadingInfo.level h = 2 ∧ HeadingInfo.text h = lit "Title  ".
Proof.
  apply (extraction_takes_content_as_matched _ 1 2 (lit "   ") 84%N (lit "itle  "));
    solve [reflexivity | lia | discriminate].
Defined.

(** C5 as stated fails: the white space that ends a heading line stays
    in the text of its record. *)
Lemma extraction_trims_counterexample :
  parseHeadings (lit "# A  ")
  = [HeadingInfo.mk 1 (lit "A  ") 0 (lit "# A  ") (lit "H1")] ∧
  trim (lit "A  ") ≠ lit "A  ".
Proof. split; [by vm_compute|]. vm_compute. discriminate. Qed.

(** ** The examples of the specification *)

Example extraction_example :
  parseHeadings (lit "# A
body
## B")
  = [HeadingInfo.mk 1 (lit "A") 0 (lit "# A") (lit "H1");
     HeadingInfo.mk 2 (lit "B") 2 (lit "## B") (lit "H2")].
Proof. by vm_compute. Qed.

(** Keeping only [H1|# A]: the line of [H2] is removed.  The entry kept
    for [H1] is in [editMap], and counted. *)
Example deletion_example :
  let content := lit "# A
body
## B" in
  applyChanges (parseHeadings content) (lit "H1|# A") content
  = (Some (lit "# A
body"), Updated 1 1 0).
Proof. by vm_compute. Qed.

(** A line [NEW|# C] after the untouched outline: [# C] is the new last
    line. *)
Example addition_example :
  let content := lit "# A
body
## B" in
  applyChanges (parseHeadings content) (lit "H1|# A
H2|## B
NEW|# C") content
  = (Some (lit "# A
body
## B
# C"), Updated 2 0 1).
Proof. by vm_compute. Qed.

(** A line with an identifier that no record has, alone with the
    untouched outline: nothing is written. *)
Example unknown_id_example :
  let content := lit "# A
body
## B" in
  applyChanges (parseHeadings content) (lit "H1|# A
H99|# Z
H2|## B") content
  = (None, NoChanges).
Proof. by vm_compute. Qed.

(** * Further properties of the program *)

(** ** The matcher: what a repetition can and cannot return *)

Section m_rep_order.
Context {R : Type}.
Implicit Types (k : nat → str → option R).

(** A repetition succeeds as soon as one admissible run of characters is
    followed by a success of the rest of the pattern. *)
Lemma m_rep_complete a min max i w s k :
  forallb (atom_ok a) w = true →
  min ≤ length w →
  (∀ n, max = Some n → length w ≤ n) →
  is_Some (k (i + length w) s) →
  is_Some (m_rep a min max i (w ++ s) k).
Proof.
  revert min max i. induction w as [|c w IH]; intros min max i Hw Hmin Hmax Hk.
  - simpl in *. assert (min = 0) as -> by lia. rewrite Nat.add_0_r in Hk.
    destruct s as [|c s]; simpl; [done|].
    destruct (atom_ok a c && negb (exhausted max)); [|done].
    by destruct (m_rep a 0 (pred <$> max) (S i) s k).
  - simpl in Hw. apply andb_prop in Hw as [Hc Hw]. simpl. rewrite Hc.
    assert (exhausted max = false) as ->.
    { destruct max as [[|n]|]; try done. specialize (Hmax 0 eq_refl). simpl in Hmax. lia. }
    simpl.
    destruct (IH (pred min) (pred <$> max) (S i)) as [r Hr]; [done| | | |by rewrite Hr].
    + simpl in Hmin. lia.
    + intros n Hn. destruct max as [m'|]; [|done]. simplify_eq/=.
      specialize (Hmax m' eq_refl). simpl in Hmax. lia.
    + replace (S i + length w) with (i + length (c :: w)) by (simpl; lia). done.
Qed.

(** What a repetition returns comes from the longest admissible run after
    which the rest of the pattern succeeds. *)
Lemma m_rep_first a min max i s k r :
  m_rep a min max i s k = Some r →
  ∃ w s', s = w ++ s' ∧ forallb (atom_ok a) w = true ∧ min ≤ length w ∧
          (∀ n, max = Some n → length w ≤ n) ∧ k (i + length w) s' = Some r ∧
          ∀ w2 s2, s = w2 ++ s2 → forallb (atom_ok a) w2 = true →
                   (∀ n, max = Some n → length w2 ≤ n) →
                   length w < length w2 → k (i + length w2) s2 = None.
Proof.
  revert min max i. induction s as [|c s IH]; intros min max i H.
  - simpl in H. destruct min; [|done]. exists [], []. rewrite Nat.add_0_r.
    split_and!; try done; [simpl; lia|].
    intros [|x w2] s2 E _ _ Hlen; simpl in *; [lia|done].
  - simpl in H.
    destruct (atom_ok a c && negb (exhausted max)) eqn:Hc.
    + apply andb_prop in Hc as [Hc Hmax]. apply negb_true_iff in Hmax.
      destruct (m_rep a (pred min) (pred <$> max) (S i) s k) as [r'|] eqn:Hrec.
      * simplify_eq. apply IH in Hrec as (w & s' & -> & Hw & Hmin & Hm & Hk & Hlong).
        exists (c :: w), s'. simpl. rewrite Hc, Hw. split_and!; try done.
        -- lia.
        -- intros n ->. destruct n; [done|]. specialize (Hm n eq_refl). lia.
        -- rewrite <-Hk. f_equal. lia.
        -- intros [|x w2] s2 E Hw2 Hm2 Hlen; simpl in *; [lia|]. simplify_eq.
           apply andb_prop in Hw2 as [_ Hw2].
           replace (i + S (length w2)) with (S i + length w2) by lia.
           apply Hlong; [done|done| |lia].
           intros n Hn. destruct max as [m'|]; [|done]. simplify_eq/=.
           specialize (Hm2 m' eq_refl). lia.
      * destruct min; [|done]. exists [], (c :: s). rewrite Nat.add_0_r.
        split_and!; try done; [simpl; lia|].
        intros [|x w2] s2 E Hw2 Hm2 Hlen; simpl in *; [lia|]. simplify_eq.
        apply andb_prop in Hw2 as [_ Hw2].
        destruct (k (i + S (length w2)) s2) as [r2|] eqn:Hk2; [|done].
        destruct (m_rep_complete a 0 (pred <$> max) (S i) w2 s2 k) as [r3 Hr3];
          [done|lia| | |congruence].
        -- intros n Hn. destruct max as [m'|]; [|done]. simplify_eq/=.
           specialize (Hm2 m' eq_refl). lia.
        -- replace (S i + length w2) with (i + S (length w2)) by lia. by rewrite Hk2.
    + destruct min; [|done]. exists [], (c :: s). rewrite Nat.add_0_r.
      split_and!; try done; [simpl; lia|].
      intros [|x w2] s2 E Hw2 Hm2 Hlen; simpl in *; [lia|]. simplify_eq.
      apply andb_prop in Hw2 as [Hx _]. rewrite Hx in Hc. simpl in Hc.
      apply negb_false_iff in Hc. destruct max as [[|n]|]; try done.
      specialize (Hm2 0 eq_refl). lia.
Qed.
End m_rep_order.

(** ** The heading pattern *)

(** X4.  A line matches [/^(#{1,6})\s+(.+)$/] exactly when it is made of
    1 to 6 markers, at least one white-space character, and at least one
    more character, none of these being a line terminator. *)
Theorem heading_pattern l :
  is_Some (regex_match re_heading l) ↔
  ∃ n ws txt,
    l = replicate n ch_hash ++ ws ++ txt ∧ 1 ≤ n ≤ 6 ∧
    ws ≠ [] ∧ forallb is_space ws = true ∧
    txt ≠ [] ∧ no_line_terminator txt = true.
Proof.
  split.
  - intros [mt Hmt].
    apply re_heading_inv in Hmt as (n & ws & txt & ? & ? & ? & ? & ? & ? & _).
    by exists n, ws, txt.
  - intros (n & ws & txt & -> & Hn & Hws & Hsp & Htxt & Hnlt).
    unfold re_heading. rewrite regex_match_bos. cbn [m].
    apply m_rep_complete.
    { by apply forallb_replicate. }
    { rewrite length_replicate. lia. }
    { rewrite length_replicate. intros ? [= <-]. lia. }
    apply m_rep_complete; [done|by destruct ws; simpl; [|lia]|done|].
    rewrite <-(app_nil_r txt) at 1.
    apply m_rep_complete; [done|by destruct txt; simpl; [|lia]|done|done].
Qed.

Lemma heading_pattern_witness : is_Some (regex_match re_heading (lit "###   Title ")).
Proof.
  apply heading_pattern. exists 3, (lit "   "), (lit "Title ").
  split_and!; solve [reflexivity | lia | discriminate].
Defined.

(** The captures of a heading line: the markers, and the text, which is
    what follows the longest run of white space after which something is
    left. *)
Lemma re_heading_inv_greedy l mt :
  regex_match re_heading l = Some mt →
  ∃ n ws txt,
    l = replicate n ch_hash ++ ws ++ txt ∧ 1 ≤ n ≤ 6 ∧
    ws ≠ [] ∧ forallb is_space ws = true ∧
    no_line_terminator txt = true ∧
    group 1 mt = replicate n ch_hash ∧ group 2 mt = txt ∧
    ((∃ c t, txt = c :: t ∧ is_space c = false) ∨
     (∃ x, txt = [x] ∧ is_space x = true)).
Proof.
  unfold re_heading. rewrite regex_match_bos. cbn [m]. intros H.
  apply m_rep_inv in H as (w1 & s1 & -> & Hw1 & Hmin1 & Hmax1 & H).
  apply m_rep_first in H as (w2 & s2 & -> & Hw2 & Hmin2 & _ & H & Hlong).
  apply m_rep_inv in H as (w3 & s3 & -> & Hw3 & Hmin3 & _ & H).
  destruct s3; [|done]. rewrite !take_span in H. simplify_eq.
  apply forallb_char_replicate in Hw1. specialize (Hmax1 6 eq_refl).
  exists (length w1), w2, w3. rewrite app_nil_r, <-Hw1.
  rewrite group_insert_eq, group_insert_ne, group_insert_eq by done.
  split_and!; try done; try lia.
  { by destruct w2; [simpl in *; lia|]. }
  destruct w3 as [|x t]; [simpl in *; lia|].
  destruct (is_space x) eqn:Hx; [|left; eauto]. right. exists x. split; [|done].
  destruct t as [|y t]; [done|]. exfalso.
  pose proof (Hlong (w2 ++ [x]) (y :: t)) as Hnone.
  assert (w2 ++ (x :: y :: t) ++ [] = (w2 ++ [x]) ++ y :: t) as E
    by (by rewrite app_nil_r, <-(assoc_L (++))).
  assert (forallb (atom_ok ASpace) (w2 ++ [x]) = true) as F
    by (rewrite forallb_app, Hw2; simpl; by rewrite Hx).
  assert (length w2 < length (w2 ++ [x])) as G by (rewrite length_app; simpl; lia).
  specialize (Hnone E F ltac:(done) G).
  assert (is_Some (@None (gmap nat (list N)))) as [? ?]; [|done].
  rewrite <-Hnone. rewrite <-(app_nil_r (y :: t)) at 1.
  apply m_rep_complete; [|simpl; lia|done|done].
  simpl in Hw3. by apply andb_prop in Hw3 as [_ ?].
Qed.

(** ** The records of an extraction *)

(** X1.  The identifiers of the records are [H1], [H2], ..., [Hn] in the
    order of the records, and no two records share one. *)
Theorem extraction_ids content :
  let hs := parseHeadings content in
  HeadingInfo.id <$> hs = (λ k, 72%N :: number_to_string k) <$> seq 1 (length hs) ∧
  NoDup (HeadingInfo.id <$> hs).
Proof. split; [apply scan_lines_ids|apply scan_lines_NoDup_id]. Qed.

(** X2.  The line indices of the records increase strictly, and each
    record keeps, as [originalLine], the line of the document at its index. *)
Theorem extraction_lines content :
  let hs := parseHeadings content in
  StronglySorted lt (HeadingInfo.line <$> hs) ∧
  Forall (λ h, split_nl content !! HeadingInfo.line h = Some (HeadingInfo.originalLine h)) hs.
Proof.
  split; [apply scan_lines_sorted|].
  apply Forall_forall. by intros h (Hl & _)%parseHeadings_elem.
Qed.

Lemma scan_lines_originalLine ls i c :
  HeadingInfo.originalLine <$> scan_lines ls i c
  = filter (λ l, is_Some (regex_match re_heading l)) ls.
Proof.
  revert i c. induction ls as [|l ls IH]; intros i c; [done|]. simpl.
  rewrite filter_cons. destruct (regex_match re_heading l) as [mt|] eqn:Hl.
  - rewrite decide_True by done. simpl. by rewrite IH.
  - rewrite decide_False by (by intros [? ?]). apply IH.
Qed.

(** X3.  The extraction records the lines that match the heading pattern,
    all of them and only them: the recorded lines are the matching lines of
    the document in their order, and a line index is that of a record exactly
    when the line there matches. *)
Theorem extraction_exact content :
  let hs := parseHeadings content in
  HeadingInfo.originalLine <$> hs
  = filter (λ l, is_Some (regex_match re_heading l)) (split_nl content) ∧
  ∀ j, j ∈ HeadingInfo.line <$> hs ↔
       ∃ l, split_nl content !! j = Some l ∧ is_Some (regex_match re_heading l).
Proof.
  split; [apply scan_lines_originalLine|]. intros j. split.
  - intros (h & -> & (Hl & (mt & Hmt & _) & _)%parseHeadings_elem)%list_elem_of_fmap.
    exists (HeadingInfo.originalLine h). by rewrite Hmt.
  - intros (l & Hl & [mt Hmt]).
    destruct (scan_lines_complete _ 0 0 _ _ _ Hl Hmt) as (h & Hh & Hj & _).
    apply list_elem_of_fmap. exists h. split; [done|]. apply Hh.
Qed.

(** X5.  The line of a record is its markers (1 to 6, as many as its
    level), white space, and its text; the text has no line terminator and
    starts with a character that is not white space, unless it is a single
    white-space character (the line has nothing but white space after its
    markers). *)
Theorem record_shape content h :
  h ∈ parseHeadings content →
  ∃ ws,
    HeadingInfo.originalLine h
    = replicate (HeadingInfo.level h) ch_hash ++ ws ++ HeadingInfo.text h ∧
    1 ≤ HeadingInfo.level h ≤ 6 ∧
    ws ≠ [] ∧ forallb is_space ws = true ∧
    no_line_terminator (HeadingInfo.text h) = true ∧
    ((∃ c t, HeadingInfo.text h = c :: t ∧ is_space c = false) ∨
     (∃ x, HeadingInfo.text h = [x] ∧ is_space x = true)).
Proof.
  intros (_ & (mt & Hmt & Hlv & Htx) & _)%parseHeadings_elem.
  apply re_heading_inv_greedy in Hmt
    as (n & ws & txt & E & Hn & Hws & Hsp & Hnlt & G1 & G2 & Hshape).
  rewrite G1, length_replicate in Hlv. rewrite G2 in Htx.
  exists ws. by rewrite Hlv, Htx.
Qed.

Lemma record_shape_witness :
  ∃ ws,
    lit "##  B " = replicate 2 ch_hash ++ ws ++ lit "B " ∧
    1 ≤ 2 ≤ 6 ∧
    ws ≠ [] ∧ forallb is_space ws = true ∧
    no_line_terminator (lit "B ") = true ∧
    ((∃ c t, lit "B " = c :: t ∧ is_space c = false) ∨
     (∃ x, lit "B " = [x] ∧ is_space x = true)).
Proof.
  apply (record_shape (lit "# A
##  B ") (HeadingInfo.mk 2 (lit "B ") 1 (lit "##  B ") (lit "H2"))).
  vm_compute. right. left.
Defined.

(** X6.  A line that ends with a carriage return is no heading: in a
    document with CR LF line ends, no line but the last can be a record. *)
Theorem carriage_return_hides_heading content j l :
  split_nl content !! j = Some (l ++ [13%N]) →
  j ∉ HeadingInfo.line <$> parseHeadings content.
Proof.
  intros Hj (h & -> & Hh)%list_elem_of_fmap.
  apply parseHeadings_elem in Hh as (Hl & (mt & Hmt & _) & _).
  rewrite Hj in Hl. injection Hl as Hl. rewrite <-Hl in Hmt.
  apply re_heading_inv in Hmt as (n & ws & txt & E & _ & _ & _ & Htxt & Hnlt & _).
  destruct (exists_last Htxt) as (t & x & ->).
  rewrite !(assoc_L (++)) in E. apply app_inj_tail in E as [_ <-].
  rewrite forallb_app in Hnlt. by apply andb_prop in Hnlt as [_ ?].
Qed.

Lemma carriage_return_hides_heading_witness :
  0 ∉ HeadingInfo.line <$> parseHeadings (lit "# A" ++ [13%N; 10%N] ++ lit "## B").
Proof.
  apply (carriage_return_hides_heading _ 0 (lit "# A")). reflexivity.
Defined.

(** ** The parser of the edited lines *)

Lemma trim_start_split s : ∃ w, s = w ++ trim_start s ∧ forallb is_space w = true.
Proof.
  induction s as [|c s (w & Hw & Hs)]; [by exists []|]. simpl.
  destruct (is_space c) eqn:Hc.
  - exists (c :: w). simpl. rewrite Hc, Hs. by rewrite <-Hw.
  - by exists [].
Qed.

Lemma trim_start_head s c t : trim_start s = c :: t → is_space c = false.
Proof.
  induction s as [|x s IH]; [done|]. simpl.
  destruct (is_space x) eqn:Hx; [done|]. by intros [= <- _].
Qed.

Lemma trim_start_fixed c t : is_space c = false → trim_start (c :: t) = c :: t.
Proof. intros H. simpl. by rewrite H. Qed.

(** [trim] leaves nothing to trim. *)
Lemma trim_trim s : trim (trim s) = trim s.
Proof.
  unfold trim.
  destruct (trim_start_split (reverse (trim_start s))) as (w & Hw & Hsp).
  destruct (trim_start (reverse (trim_start s))) as [|c b] eqn:Hb; [done|].
  assert (is_space c = false) as Hc by by eapply trim_start_head.
  apply (f_equal reverse) in Hw. rewrite reverse_involutive, reverse_app in Hw.
  destruct (reverse (c :: b)) as [|x r] eqn:Hr.
  { apply (f_equal reverse) in Hr. by rewrite reverse_involutive in Hr. }
  assert (is_space x = false) as Hx.
  { rewrite Hw in *. by eapply trim_start_head. }
  rewrite trim_start_fixed by done. rewrite <-Hr, reverse_involutive.
  by rewrite trim_start_fixed.
Qed.

Lemma no_line_terminator_trim s :
  no_line_terminator s = true → no_line_terminator (trim s) = true.
Proof.
  unfold no_line_terminator, trim. intros H. rewrite forallb_reverse.
  destruct (trim_start_split (reverse (trim_start s))) as (w & Hw & _).
  assert (forallb (λ c, negb (is_line_terminator c)) (reverse (trim_start s)) = true) as H'.
  { rewrite forallb_reverse. destruct (trim_start_split s) as (w' & Hw' & _).
    rewrite Hw', forallb_app in H. by apply andb_prop in H as [_ ?]. }
  rewrite Hw, forallb_app in H'. by apply andb_prop in H' as [_ ?].
Qed.

Lemma re_edited_inv l mt :
  regex_match re_edited l = Some mt →
  ∃ w0 n w1 body,
    l = group 1 mt ++ ch_pipe :: w0 ++ replicate n ch_hash ++ w1 ++ body ∧
    outline_id (group 1 mt) = true ∧
    forallb is_space w0 = true ∧ 1 ≤ n ≤ 6 ∧
    w1 ≠ [] ∧ forallb is_space w1 = true ∧
    body ≠ [] ∧ no_line_terminator body = true ∧
    group 2 mt = replicate n ch_hash ∧ group 3 mt = body.
Proof.
  assert (∀ (i0 : nat) (idv s : list N) (c0 : gmap nat (list N)) r,
    m_rep ASpace 0 None i0 s
      (λ i1 s1, m_rep (AChar ch_hash) 1 (Some 6) i1 s1
        (λ i2 s2, m_rep ASpace 1 None i2 s2
          (λ i3 s3, m_rep ADot 1 None i3 s3
            (λ i4 s4, match s4 with
                      | [] => Some (<[3:=take (i4 - i3) s3]> (<[2:=take (i2 - i1) s1]> c0))
                      | _ :: _ => None
                      end)))) = Some r →
    ∃ w0 n w1 body,
      s = w0 ++ replicate n ch_hash ++ w1 ++ body ∧
      forallb is_space w0 = true ∧ 1 ≤ n ≤ 6 ∧
      w1 ≠ [] ∧ forallb is_space w1 = true ∧
      body ≠ [] ∧ no_line_terminator body = true ∧
      r = <[3:=body]> (<[2:=replicate n ch_hash]> c0)) as Htail.
  { intros i0 idv s c0 r H.
    apply m_rep_inv in H as (w0 & s0 & -> & Hw0 & _ & _ & H).
    apply m_rep_inv in H as (w1 & s1 & -> & Hw1 & Hmin1 & Hmax1 & H).
    apply m_rep_inv in H as (w2 & s2 & -> & Hw2 & Hmin2 & _ & H).
    apply m_rep_inv in H as (w3 & s3 & -> & Hw3 & Hmin3 & _ & H).
    destruct s3; [|done]. rewrite !take_span in H. simplify_eq.
    apply forallb_char_replicate in Hw1. specialize (Hmax1 6 eq_refl).
    exists w0, (length w1), w2, w3. rewrite app_nil_r, <-Hw1.
    split_and!; try done; try lia.
    - by destruct w2; [simpl in *; lia|].
    - by destruct w3; [simpl in *; lia|]. }
  unfold re_edited. rewrite regex_match_bos. cbn [m]. intros H.
  destruct l as [|x l]; [done|].
  destruct (atom_ok (AChar 72) x) eqn:Hx.
  - (* H<digits> *)
    apply N.eqb_eq in Hx as ->.
    destruct (m_rep ADigit 1 None 1 l _) as [r|] eqn:Hd.
    + injection H as ->.
      apply m_rep_inv in Hd as (ds & s' & -> & Hds & Hmin & _ & Hd).
      destruct s' as [|p s']; [done|].
      destruct (atom_ok (AChar ch_pipe) p) eqn:Hp; [|done].
      apply N.eqb_eq in Hp as ->.
      apply Htail in Hd as (w0 & n & w1 & body & -> & ? & ? & ? & ? & ? & ? & ->); [|exact []].
      change (72%N :: ds ++ ?s) with ((72%N :: ds) ++ s).
      replace (1 + length ds - 0) with (0 + length (72%N :: ds) - 0) by (simpl; lia).
      rewrite take_span.
      exists w0, n, w1, body.
      repeat (rewrite group_insert_eq || rewrite group_insert_ne by done).
      split_and!; try done; try lia.
      unfold outline_id, heading_id. change (forallb is_digit ds) with (forallb (atom_ok ADigit) ds).
      rewrite Hds, andb_true_r, N.eqb_refl. simpl.
      apply orb_true_intro. left. apply bool_decide_eq_true_2.
      by destruct ds; [simpl in *; lia|].
    + by cbn [atom_ok N.eqb Pos.eqb] in H.
  - (* NEW *)
    destruct (atom_ok (AChar 78) x) eqn:Hn; [|done]. apply N.eqb_eq in Hn as ->.
    destruct l as [|y l]; [done|].
    destruct (atom_ok (AChar 69) y) eqn:He; [|done]. apply N.eqb_eq in He as ->.
    destruct l as [|z l]; [done|].
    destruct (atom_ok (AChar 87) z) eqn:Hw; [|done]. apply N.eqb_eq in Hw as ->.
    destruct l as [|p l]; [done|].
    destruct (atom_ok (AChar ch_pipe) p) eqn:Hp; [|done]. apply N.eqb_eq in Hp as ->.
    apply Htail in H as (w0 & n & w1 & body & -> & ? & ? & ? & ? & ? & ? & ->); [|exact []].
    exists w0, n, w1, body.
    repeat (rewrite group_insert_eq || rewrite group_insert_ne by done).
    split_and!; try done; lia.
Qed.

(** X7.  Every entry comes from a line of the form identifier, [|],
    white space, markers, white space, text: the identifier is [H<integer>]
    or [NEW], the level is the number of markers, between 1 and 6, and the
    text is what follows, trimmed; it has no line terminator and nothing left
    to trim. *)
Theorem parse_edited_line_shape l e :
  parse_edited_line l = Some e →
  ∃ w0 w1 body,
    l = Edited.id e ++ ch_pipe :: w0 ++ replicate (Edited.level e) ch_hash ++ w1 ++ body ∧
    outline_id (Edited.id e) = true ∧
    forallb is_space w0 = true ∧
    1 ≤ Edited.level e ≤ 6 ∧
    w1 ≠ [] ∧ forallb is_space w1 = true ∧
    body ≠ [] ∧ no_line_terminator body = true ∧
    Edited.text e = trim body ∧
    trim (Edited.text e) = Edited.text e ∧
    no_line_terminator (Edited.text e) = true.
Proof.
  unfold parse_edited_line. destruct (regex_match re_edited l) as [mt|] eqn:Hmt; [|done].
  simpl. intros [= <-]. simpl.
  apply re_edited_inv in Hmt
    as (w0 & n & w1 & body & E & Hid & Hw0 & Hn & Hne & Hw1 & Hb & Hnlt & G2 & G3).
  exists w0, w1, body. rewrite G2, G3, length_replicate.
  split_and!; try done; try lia.
  - apply trim_trim.
  - by apply no_line_terminator_trim.
Qed.

Lemma parse_edited_line_shape_witness :
  ∃ w0 w1 body,
    lit "NEW| ##  New  " = lit "NEW" ++ ch_pipe :: w0 ++ replicate 2 ch_hash ++ w1 ++ body ∧
    outline_id (lit "NEW") = true ∧
    forallb is_space w0 = true ∧
    1 ≤ 2 ≤ 6 ∧
    w1 ≠ [] ∧ forallb is_space w1 = true ∧
    body ≠ [] ∧ no_line_terminator body = true ∧
    lit "New" = trim body ∧
    trim (lit "New") = lit "New" ∧
    no_line_terminator (lit "New") = true.
Proof.
  apply (parse_edited_line_shape (lit "NEW| ##  New  ") (Edited.mk (lit "NEW") 2 (lit "New"))).
  reflexivity.
Defined.

(** X8.  A line typed as a heading of the document, without an
    identifier before it, is no entry: the reconciler drops it. *)
Theorem heading_without_id_is_dropped l :
  is_Some (regex_match re_heading l) → parse_edited_line l = None.
Proof.
  intros [mt Hmt]. unfold parse_edited_line.
  destruct (regex_match re_edited l) as [mt'|] eqn:He; [|done]. exfalso.
  apply re_heading_inv in Hmt as (n & ws & txt & -> & Hn & _).
  apply re_edited_inv in He as (w0 & n' & w1 & body & E & Hid & _).
  destruct n as [|n]; [lia|]. simpl in E.
  destruct (group 1 mt') as [|c i]; [done|]. injection E as <- _.
  unfold outline_id in Hid. apply orb_prop in Hid as [Hid|Hid]; [done|].
  by apply bool_decide_eq_true_1 in Hid.
Qed.

Lemma heading_without_id_is_dropped_witness : parse_edited_line (lit "## New section") = None.
Proof.
  apply heading_without_id_is_dropped. exists (<[2 := lit "New section"]> (<[1 := lit "##"]> ∅)).
  apply (re_heading_match 2 (lit " ") 78%N (lit "ew section")); solve [reflexivity | lia | discriminate].
Defined.

(** ** The outline sent to the service *)

Lemma split_nl_newline_free s : forallb newline_free (split_nl s) = true.
Proof.
  induction s as [|c s IH]; [done|]. simpl.
  destruct (c =? ch_nl)%N eqn:Hc; [done|].
  destruct (split_nl s) as [|l ls]; simpl in *; by rewrite ?Hc.
Qed.

Lemma split_nl_nonempty s : split_nl s ≠ [].
Proof.
  destruct s as [|c s]; [done|]. simpl.
  destruct (c =? ch_nl)%N; [done|]. by destruct (split_nl s).
Qed.

(** What a match of [/^H\d+\|(.+)$/] says of the line. *)
Lemma re_strip_inv l mt :
  regex_match re_strip l = Some mt →
  ∃ ds, ds ≠ [] ∧ forallb is_digit ds = true ∧
        l = 72%N :: ds ++ ch_pipe :: group 1 mt ∧
        group 1 mt ≠ [] ∧ no_line_terminator (group 1 mt) = true.
Proof.
  unfold re_strip. rewrite regex_match_bos. cbn [m].
  destruct l as [|x l]; [done|].
  destruct (atom_ok (AChar 72) x) eqn:Hx; [|done]. apply N.eqb_eq in Hx as ->.
  intros H. apply m_rep_inv in H as (ds & s' & -> & Hds & Hmin & _ & H).
  destruct s' as [|p s']; [done|].
  destruct (atom_ok (AChar ch_pipe) p) eqn:Hp; [|done]. apply N.eqb_eq in Hp as ->.
  apply m_rep_inv in H as (rest & s3 & -> & Hrest & Hmin3 & _ & H).
  destruct s3; [|done]. injection H as <-.
  rewrite group_insert_eq, take_span, app_nil_r.
  exists ds. split_and!; try done.
  - by destruct ds; [simpl in *; lia|].
  - by destruct rest; [simpl in *; lia|].
Qed.

(** X9.  [strip_id] leaves a line as it is or removes [H<digits>|] from
    its start, and nothing else; what is left after a removal is not empty
    and has no line terminator. *)
Theorem strip_id_removes_only_an_id l :
  strip_id l = l ∨
  ∃ ds, ds ≠ [] ∧ forallb is_digit ds = true ∧
        l = 72%N :: ds ++ ch_pipe :: strip_id l ∧
        strip_id l ≠ [] ∧ no_line_terminator (strip_id l) = true.
Proof.
  unfold strip_id. destruct (regex_match re_strip l) as [mt|] eqn:Hmt; [|by left].
  right. by apply re_strip_inv.
Qed.

(** An identifier with nothing after it is not removed. *)
Lemma strip_id_keeps_bare_id ds :
  forallb is_digit ds = true → strip_id (72%N :: ds ++ [ch_pipe]) = 72%N :: ds ++ [ch_pipe].
Proof.
  intros Hds. unfold strip_id.
  destruct (regex_match re_strip _) as [mt|] eqn:Hmt; [|done]. exfalso.
  apply re_strip_inv in Hmt as (ds' & _ & Hds' & E & Hne & _).
  injection E as E.
  destruct (group 1 mt) as [|c r]; [done|].
  assert (ds = ds') as <-.
  { eapply (span_unique is_digit); [done|done| | |exact E]; done. }
  apply app_inv_head in E. done.
Qed.



(** ** Re-attaching the identifiers, in general *)

Lemma leading_ids_length os : length (leading_ids os) ≤ length os.
Proof.
  induction os as [|o os IH]; simpl; [lia|].
  destruct (regex_match re_id o); simpl; lia.
Qed.

Lemma leading_ids_lookup os k i :
  leading_ids os !! k = Some i →
  ∃ o mt, os !! k = Some o ∧ regex_match re_id o = Some mt ∧ group 1 mt = i.
Proof.
  revert k. induction os as [|o os IH]; intros k; simpl; [done|].
  destruct (regex_match re_id o) as [mt|] eqn:Hmt; [|done].
  destruct k as [|k]; simpl; [|apply IH]. intros [= <-]. eauto.
Qed.

Lemma leading_ids_stop os o :
  os !! length (leading_ids os) = Some o → regex_match re_id o = None.
Proof.
  induction os as [|x os IH]; simpl; [done|].
  destruct (regex_match re_id x) as [mt|] eqn:Hmt; simpl; [done|]. by intros [= <-].
Qed.

(** The loop of [matchHeadingsWithIds], as a map over the lines of the
    reply with their index. *)
Lemma matchHeadingsWithIds_imap originalLines enhancedLines :
  matchHeadingsWithIds originalLines enhancedLines
  = imap (λ i enhancedLine,
            match leading_ids originalLines !! i with
            | Some id => id ++ ch_pipe :: enhancedLine
            | None =>
                if length (leading_ids originalLines) =? length originalLines
                then lit "NEW|" ++ enhancedLine
                else enhancedLine
            end) enhancedLines.
Proof.
  unfold matchHeadingsWithIds.
  set (f := λ (i : nat) (e : list N),
          match leading_ids originalLines !! i with
          | Some id => id ++ ch_pipe :: e
          | None => if length (leading_ids originalLines) =? length originalLines
                    then lit "NEW|" ++ e else e
          end).
  assert (∀ es res k, k ≤ length (leading_ids originalLines) →
    (foldl (match_step originalLines) (res, k) es).1 = res ++ imap (λ i, f (k + i)) es) as H.
  { induction es as [|e es IH]; intros res k Hk; cbn [foldl].
    - simpl. by rewrite app_nil_r.
    - pose proof (leading_ids_length originalLines) as Hlen.
      unfold match_step at 2.
      destruct (originalLines !! k) as [o|] eqn:Ho.
      + destruct (leading_ids originalLines !! k) as [i|] eqn:Hi.
        * destruct (leading_ids_lookup _ _ _ Hi) as (o' & mt & Ho' & Hmt & <-).
          simplify_eq. rewrite Hmt.
          rewrite IH by (apply lookup_lt_Some in Hi; lia).
          rewrite imap_cons, <-(assoc_L (++)). simpl. f_equal. f_equal.
          -- unfold f. by rewrite Nat.add_0_r, Hi.
          -- apply imap_ext. intros j x _. simpl. f_equal. lia.
        * apply lookup_ge_None in Hi. assert (k = length (leading_ids originalLines)) as -> by lia.
          rewrite (leading_ids_stop _ _ Ho).
          rewrite IH by done. rewrite imap_cons, <-(assoc_L (++)). simpl.
          apply lookup_lt_Some in Ho.
          assert (∀ j x, f (length (leading_ids originalLines) + j) x = x) as Hf.
          { intros j x. unfold f. rewrite lookup_ge_None_2 by lia.
            by rewrite (proj2 (Nat.eqb_neq _ _)) by lia. }
          f_equal. f_equal; [by rewrite Hf|].
          apply imap_ext. intros j x _. simpl. by rewrite !Hf.
      + apply lookup_ge_None in Ho.
        assert (∀ j x, f (k + j) x = lit "NEW|" ++ x) as Hf.
        { intros j x. unfold f. rewrite lookup_ge_None_2 by lia.
          by rewrite (proj2 (Nat.eqb_eq _ _)) by lia. }
        rewrite IH by done. rewrite imap_cons, <-(assoc_L (++)). simpl.
        f_equal. f_equal; [by rewrite Hf|].
        apply imap_ext. intros j x _. simpl. by rewrite !Hf. }
  rewrite H by lia. simpl. by apply imap_ext.
Qed.

(** X13.  [matchHeadingsWithIds] gives the identifiers of the original
    lines, in their order, to the lines of the reply, up to the first
    original line without an identifier.  From there on, the lines of the
    reply are left bare; they are tagged [NEW] only when every original line
    has an identifier and the reply is longer. *)
Theorem matchHeadingsWithIds_spec originalLines enhancedLines :
  length (matchHeadingsWithIds originalLines enhancedLines) = length enhancedLines ∧
  ∀ i enhancedLine,
    enhancedLines !! i = Some enhancedLine →
    matchHeadingsWithIds originalLines enhancedLines !! i
    = Some match leading_ids originalLines !! i with
           | Some id => id ++ ch_pipe :: enhancedLine
           | None =>
               if length (leading_ids originalLines) =? length originalLines
               then lit "NEW|" ++ enhancedLine
               else enhancedLine
           end.
Proof.
  rewrite matchHeadingsWithIds_imap. split; [apply length_imap|].
  intros i e He. by rewrite list_lookup_imap, He.
Qed.

(** X11.  The result has one line for each line of the reply, in the
    same order, and each is the line of the reply, bare or after a prefix:
    no line of the reply is dropped or altered. *)
Theorem matchHeadingsWithIds_keeps_reply originalLines enhancedLines :
  Forall2 (λ enhancedLine result, ∃ prefix, result = prefix ++ enhancedLine)
          enhancedLines (matchHeadingsWithIds originalLines enhancedLines).
Proof.
  rewrite matchHeadingsWithIds_imap. apply Forall2_same_length_lookup. split.
  - by rewrite length_imap.
  - intros i e r He. rewrite list_lookup_imap, He. simpl. intros [= <-].
    destruct (leading_ids originalLines !! i) as [x|].
    + exists (x ++ [ch_pipe]). by rewrite <-(assoc_L (++)).
    + destruct (_ =? _); [by exists (lit "NEW|")|by exists []].
Qed.

(** X12.  When every original line carries an [H<n>|] prefix, line [i]
    of the reply gets the identifier of original line [i], and the lines of
    the reply beyond the original lines get [NEW]. *)
Theorem matchHeadingsWithIds_positional originalLines enhancedLines i enhancedLine :
  Forall (λ o, is_Some (regex_match re_id o)) originalLines →
  enhancedLines !! i = Some enhancedLine →
  matchHeadingsWithIds originalLines enhancedLines !! i
  = Some match originalLines !! i with
         | Some original => group 1 (default ∅ (regex_match re_id original))
                            ++ ch_pipe :: enhancedLine
         | None => lit "NEW|" ++ enhancedLine
         end.
Proof.
  intros Hpre He. rewrite matchHeadingsWithIds_prefixed by done.
  unfold reattach_positional. rewrite list_lookup_imap, He. simpl.
  destruct (originalLines !! i) as [o|] eqn:Ho; [|done].
  rewrite Forall_forall in Hpre.
  destruct (Hpre o (list_elem_of_lookup_2 _ _ _ Ho)) as [mt Hmt]. by rewrite Hmt.
Qed.

Lemma matchHeadingsWithIds_positional_witness :
  matchHeadingsWithIds [lit "H1|# A"; lit "H2|## B"] [lit "# One"; lit "## Two"; lit "## Three"] !! 2
  = Some (lit "NEW|## Three").
Proof.
  apply (matchHeadingsWithIds_positional [lit "H1|# A"; lit "H2|## B"]
           [lit "# One"; lit "## Two"; lit "## Three"] 2 (lit "## Three")).
  - do 2 (constructor; [vm_compute; eexists; reflexivity|]). constructor.
  - reflexivity.
Defined.

(** ** The patterns of the fences *)

Lemma m_chars l r i s (c : gmap nat (list N)) k :
  m (chars l r) i s c k
  = if starts_with l s then m r (i + length l) (drop (length l) s) c k else None.
Proof.
  revert i s. induction l as [|x l IH]; intros i s; simpl.
  - by rewrite Nat.add_0_r, drop_0.
  - destruct s as [|y s]; [done|]. destruct (y =? x)%N; [|done]. simpl.
    rewrite IH. by replace (S i + length l) with (i + S (length l)) by lia.
Qed.

Lemma starts_with_length l s : starts_with l s = true → length l ≤ length s.
Proof.
  revert s. induction l as [|x l IH]; intros [|y s]; simpl; try done; try lia.
  intros [_ H]%andb_prop. apply IH in H. lia.
Qed.

(** The matches of a fence pattern: the fence, and the line feed after it
    if there is one. *)
Lemma match_length_fence l i s :
  match_length (chars l (Rep (AChar ch_nl) 0 (Some 1))) i s
  = if starts_with l s
    then Some (length l + match drop (length l) s with
                          | x :: _ => if (x =? ch_nl)%N then 1 else 0
                          | [] => 0
                          end)
    else None.
Proof.
  unfold match_length. cbn [m]. rewrite m_chars.
  destruct (starts_with l s) eqn:Hl; [|done]. apply starts_with_length in Hl.
  cbn [m]. pose proof (length_drop s (length l)) as Hd.
  destruct (drop (length l) s) as [|x s'] eqn:Hs; simpl.
  - rewrite group_insert_eq, length_take. f_equal. lia.
  - destruct (x =? ch_nl)%N; simpl.
    + destruct s' as [|y s']; simpl; rewrite ?andb_false_r; simpl;
        rewrite group_insert_eq, length_take; f_equal; simpl in Hd; lia.
    + rewrite group_insert_eq, length_take. f_equal. lia.
Qed.

(** ** The reply of the service, cleaned *)

Lemma starts_with_app l s : starts_with l (l ++ s) = true.
Proof. induction l as [|c l IH]; [done|]. simpl. by rewrite N.eqb_refl. Qed.

Lemma starts_with_split l s : starts_with l s = true → s = l ++ drop (length l) s.
Proof.
  revert s. induction l as [|c l IH]; intros [|x s]; simpl; try done.
  intros [->%N.eqb_eq H]%andb_prop. f_equal. by apply IH.
Qed.

Lemma starts_with_prefix l a b : starts_with l a = true → starts_with l (a ++ b) = true.
Proof.
  revert a. induction l as [|c l IH]; intros [|x a]; simpl; try done.
  intros [-> H]%andb_prop. simpl. by apply IH.
Qed.

(** A text that does not start with [l] does not either when a character
    foreign to [l] and more text are put after it. *)
Lemma starts_with_sep l a c b :
  starts_with l a = false → c ∉ l → starts_with l (a ++ c :: b) = false.
Proof.
  revert a. induction l as [|x l IH]; intros a Ha Hc; [done|].
  apply not_elem_of_cons in Hc as [Hx Hc]. destruct a as [|y a]; simpl in *.
  - apply N.eqb_neq in Hx. by rewrite Hx.
  - destruct (y =? x)%N; [|done]. simpl in *. by apply IH.
Qed.


Lemma remove_all_skip (p : regex) i n s :
  n ≤ length s → remove_all p i n s = remove_all p (i + n) 0 (drop n s).
Proof.
  revert i s. induction n as [|n IH]; intros i s Hn.
  - by rewrite Nat.add_0_r, drop_0.
  - destruct s as [|x s]; simpl in *; [lia|]. rewrite IH by lia. f_equal. lia.
Qed.

Lemma remove_all_miss l i c s :
  starts_with l (c :: s) = false →
  remove_all (fence l) i 0 (c :: s) = c :: remove_all (fence l) (S i) 0 s.
Proof.
  intros H. cbn [remove_all]. by rewrite match_length_fence, H.
Qed.

Lemma remove_all_hit c0 l0 i s :
  starts_with (c0 :: l0) s = true →
  ∃ j, remove_all (fence (c0 :: l0)) i 0 s
       = remove_all (fence (c0 :: l0)) j 0 (after_nl (drop (S (length l0)) s)).
Proof.
  intros H. pose proof (starts_with_length _ _ H) as Hlen.
  destruct s as [|c s]; [done|]. cbn [remove_all].
  rewrite match_length_fence, H. cbn [Nat.add drop length] in *.
  pose proof (length_drop s (length l0)) as Hd.
  destruct (drop (length l0) s) as [|x t] eqn:E; cbn [after_nl].
  - eexists. rewrite remove_all_skip by lia. by rewrite Nat.add_0_r, E.
  - destruct (x =? ch_nl)%N.
    + eexists. rewrite remove_all_skip by (simpl in Hd; lia).
      by rewrite Nat.add_comm, <-drop_drop, E.
    + eexists. rewrite remove_all_skip by lia. by rewrite Nat.add_0_r, E.
Qed.

Lemma remove_all_free c0 l0 i a b :
  c0 ∉ a →
  remove_all (fence (c0 :: l0)) i 0 (a ++ b)
  = a ++ remove_all (fence (c0 :: l0)) (i + length a) 0 b.
Proof.
  revert i. induction a as [|x a IH]; intros i Ha; simpl app.
  - by rewrite Nat.add_0_r.
  - apply not_elem_of_cons in Ha as [Hx Ha]. rewrite remove_all_miss.
    + rewrite IH by done. by replace (i + S (length a)) with (S i + length a) by lia.
    + simpl. apply not_eq_sym, N.eqb_neq in Hx. by rewrite Hx.
Qed.

Lemma has_fence_cons c s : c ≠ ch_backtick → has_fence (c :: s) = has_fence s.
Proof.
  intros Hc. cbn [has_fence]. change (lit "```") with [ch_backtick; ch_backtick; ch_backtick].
  cbn [starts_with]. apply N.eqb_neq in Hc. by rewrite Hc.
Qed.

Lemma has_fence_free s : ch_backtick ∉ s → has_fence s = false.
Proof.
  induction s as [|c s IH]; [done|]. intros [Hc Hs]%not_elem_of_cons.
  rewrite has_fence_cons by done. auto.
Qed.

Lemma has_fence_app_l a b : has_fence (a ++ b) = false → has_fence a = false.
Proof.
  induction a as [|c a IH]; [done|]. cbn [app has_fence].
  intros [H1 H2]%orb_false_elim. rewrite IH by done.
  destruct (starts_with (lit "```") (c :: a)) eqn:E; [|done].
  apply (starts_with_prefix _ _ b) in E. simpl app in E. congruence.
Qed.

Lemma has_fence_app_r a b : has_fence (a ++ b) = false → has_fence b = false.
Proof.
  induction a as [|c a IH]; [done|]. cbn [app has_fence].
  intros [_ H2]%orb_false_elim. auto.
Qed.

(** Two texts without a fence, put together with a character between them
    that is no backtick, hold no fence. *)
Lemma has_fence_sep a c b :
  has_fence a = false → has_fence b = false → c ≠ ch_backtick →
  has_fence (a ++ c :: b) = false.
Proof.
  intros Ha Hb Hc. induction a as [|x a IH]; cbn [app].
  - by rewrite has_fence_cons.
  - cbn [has_fence] in *. apply orb_false_elim in Ha as [H1 H2].
    rewrite IH by done. rewrite orb_false_r.
    apply (starts_with_sep _ (x :: a)); [done|].
    intros Hin. apply Hc.
    by repeat (apply elem_of_cons in Hin as [->|Hin]; [done|]); apply elem_of_nil in Hin.
Qed.

Lemma starts_with_weaken l1 l2 s :
  starts_with (l1 ++ l2) s = true → starts_with l1 s = true.
Proof.
  revert s. induction l1 as [|c l1 IH]; intros [|x s]; simpl; try done.
  intros [-> H]%andb_prop. simpl. by apply IH.
Qed.

(** A text without three backticks in a row holds no match of a pattern
    that starts with them. *)
Lemma remove_all_no_fence l i s :
  has_fence s = false → remove_all (fence (lit "```" ++ l)) i 0 s = s.
Proof.
  revert i. induction s as [|c s IH]; intros i H; [done|].
  cbn [has_fence] in H. apply orb_false_elim in H as [H1 H2].
  assert (starts_with (lit "```" ++ l) (c :: s) = false) as E.
  { apply not_true_is_false. intros E%starts_with_weaken. congruence. }
  rewrite remove_all_miss by done. by rewrite IH.
Qed.

Lemma trim_split s :
  ∃ w1 w2, s = w1 ++ trim s ++ w2 ∧
           forallb is_space w1 = true ∧ forallb is_space w2 = true.
Proof.
  destruct (trim_start_split s) as (w1 & H1 & Hw1).
  destruct (trim_start_split (reverse (trim_start s))) as (w2 & H2 & Hw2).
  exists w1, (reverse w2). split_and!; [|done|by rewrite forallb_reverse].
  apply (f_equal reverse) in H2. rewrite reverse_involutive, reverse_app in H2.
  unfold trim. by rewrite <-H2.
Qed.

(** X16.  A reply that holds no three backticks in a row is only trimmed
    by the cleaning. *)
Theorem reply_without_fence content :
  has_fence content = false → clean_reply content = trim content.
Proof.
  intros H. unfold clean_reply, re_fence, re_fence_markdown.
  destruct (trim_split content) as (w1 & w2 & E & _).
  rewrite E in H. apply has_fence_app_r, has_fence_app_l in H.
  change (lit "```markdown") with (lit "```" ++ lit "markdown").
  rewrite remove_all_no_fence by done.
  rewrite <-(app_nil_r (lit "```")), remove_all_no_fence by done.
  apply trim_trim.
Qed.

Lemma reply_without_fence_witness :
  clean_reply (lit "  # A `x`  ") = lit "# A `x`".
Proof. by rewrite (reply_without_fence (lit "  # A `x`  ")). Defined.

Lemma trim_between w1 w2 c1 t c2 :
  forallb is_space w1 = true → forallb is_space w2 = true →
  is_space c1 = false → is_space c2 = false →
  trim (w1 ++ c1 :: t ++ c2 :: w2) = c1 :: t ++ [c2].
Proof.
  intros Hw1 Hw2 Hc1 Hc2. unfold trim. rewrite trim_start_spaces by done.
  rewrite trim_start_fixed by done.
  change (c1 :: t ++ c2 :: w2) with ((c1 :: t) ++ [c2] ++ w2).
  rewrite (assoc_L (++)), reverse_app, trim_start_spaces by by rewrite forallb_reverse.
  rewrite reverse_app. change (reverse [c2]) with [c2]. cbn [app].
  rewrite trim_start_fixed by done.
  by rewrite reverse_cons, reverse_involutive.
Qed.

Lemma after_nl_app s t :
  match t with c :: _ => c ≠ ch_nl | [] => True end →
  after_nl (s ++ t) = after_nl s ++ t.
Proof.
  destruct s as [|x s]; cbn [app after_nl].
  - destruct t as [|c t]; [done|]. intros Hc%N.eqb_neq. cbn [after_nl]. by rewrite Hc.
  - by destruct (x =? ch_nl)%N.
Qed.

Lemma elem_of_after_nl x s : x ∈ after_nl s → x ∈ s.
Proof.
  destruct s as [|c s]; [done|]. cbn [after_nl]. destruct (c =? ch_nl)%N; [|done].
  intros H. apply elem_of_cons. by right.
Qed.

Lemma not_elem_of_drop {A} (x : A) n l : x ∉ l → x ∉ drop n l.
Proof.
  intros Hx [k Hk]%list_elem_of_lookup. rewrite lookup_drop in Hk.
  by apply list_elem_of_lookup_2 in Hk.
Qed.

(** X15.  A reply that is one fenced block, with white space around it,
    is cleaned to the trimmed inside of the block: the opening fence goes
    with the label [markdown], if it is there, and with the line feed after
    it; the closing fence goes.  Any other label stays, as text. *)
Theorem fenced_reply w1 w2 body :
  forallb is_space w1 = true → forallb is_space w2 = true →
  ch_backtick ∉ body →
  clean_reply (w1 ++ lit "```" ++ body ++ lit "```" ++ w2) = trim (unfenced body).
Proof.
  intros Hw1 Hw2 Hb. unfold clean_reply. f_equal.
  change (lit "```") with [ch_backtick; ch_backtick; ch_backtick].
  set (bt3 := [ch_backtick; ch_backtick; ch_backtick]).
  assert (trim (w1 ++ bt3 ++ body ++ bt3 ++ w2) = bt3 ++ body ++ bt3) as ->.
  { pose proof (trim_between w1 w2 ch_backtick
                  (ch_backtick :: ch_backtick :: body ++ [ch_backtick; ch_backtick])
                  ch_backtick Hw1 Hw2 eq_refl eq_refl) as H.
    subst bt3. simpl in *. rewrite <-!(assoc_L (++)) in H. apply H. }
  assert (∀ l j, remove_all (fence (ch_backtick :: ch_backtick :: ch_backtick :: l)) j 0 bt3
                 = if decide (l = []) then [] else bt3) as Hend.
  { intros l j. destruct l as [|x l].
    - destruct (remove_all_hit ch_backtick [ch_backtick; ch_backtick] j bt3 eq_refl)
        as [j' ->]. done.
    - subst bt3. by rewrite !remove_all_miss by done. }
  assert (∀ l j rest,
    ch_backtick ∉ rest →
    remove_all (fence (ch_backtick :: ch_backtick :: ch_backtick :: l)) j 0
      (after_nl (rest ++ bt3))
    = after_nl rest ++ if decide (l = []) then [] else bt3) as Htail.
  { intros l j rest Hrest. rewrite after_nl_app by done.
    rewrite remove_all_free; [by rewrite Hend|].
    intros H. by apply elem_of_after_nl in H. }
  unfold unfenced, re_fence_markdown, re_fence.
  change (lit "```") with [ch_backtick; ch_backtick; ch_backtick].
  change (lit "```markdown") with (ch_backtick :: ch_backtick :: ch_backtick :: lit "markdown").
  change (lit "markdown") with [109; 97; 114; 107; 100; 111; 119; 110]%N.
  set (md := [109; 97; 114; 107; 100; 111; 119; 110]%N).
  destruct (starts_with md body) eqn:Hmd.
  - destruct (remove_all_hit ch_backtick (ch_backtick :: ch_backtick :: md) 0
                (bt3 ++ body ++ bt3)) as [j ->].
    { subst bt3. cbn [app starts_with]. rewrite N.eqb_refl. cbn [andb].
      by apply starts_with_prefix. }
    assert (drop (S (length (ch_backtick :: ch_backtick :: md))) (bt3 ++ body ++ bt3)
            = drop 8 body ++ bt3) as ->.
    { apply starts_with_length in Hmd. subst bt3. cbn [length app drop].
      by rewrite drop_app_le. }
    pose proof (not_elem_of_drop _ 8 _ Hb) as Hd.
    rewrite Htail by done. rewrite decide_False by done.
    rewrite remove_all_free by (intros H; by apply elem_of_after_nl in H).
    by rewrite (Hend []), app_nil_r.
  - assert (remove_all (fence (ch_backtick :: ch_backtick :: ch_backtick :: md)) 0 0
              (bt3 ++ body ++ bt3) = bt3 ++ body ++ bt3) as ->.
    { subst bt3. cbn [app].
      assert (starts_with md (body ++ [ch_backtick; ch_backtick; ch_backtick]) = false) as H0.
      { apply starts_with_sep; [done|]. subst md. intros Hin.
        by repeat (apply elem_of_cons in Hin as [Hin|Hin]; [done|]); apply elem_of_nil in Hin. }
      rewrite remove_all_miss by (cbn [starts_with]; by rewrite H0, !andb_false_r).
      assert (∀ l, l = [] ∨ l = [ch_backtick] →
                starts_with (ch_backtick :: l ++ md)
                  (body ++ [ch_backtick; ch_backtick; ch_backtick]) = false) as H1.
      { intros l Hl. destruct body as [|x body].
        - by destruct Hl as [->| ->].
        - apply not_elem_of_cons in Hb as [Hx Hb]. apply not_eq_sym, N.eqb_neq in Hx.
          cbn [app starts_with]. by rewrite Hx. }
      rewrite remove_all_miss
        by exact (H1 [] (or_introl eq_refl)).
      rewrite remove_all_miss
        by exact (H1 [ch_backtick] (or_intror eq_refl)).
      rewrite remove_all_free by done. by rewrite (Hend md), decide_False. }
    destruct (remove_all_hit ch_backtick [ch_backtick; ch_backtick] 0
                (bt3 ++ body ++ bt3) eq_refl) as [j ->].
    change (drop _ (bt3 ++ body ++ bt3)) with (body ++ bt3).
    by rewrite (Htail []), app_nil_r.
Qed.

Lemma fenced_reply_witness :
  clean_reply (lit " " ++ lit "```" ++ (lit "markdown" ++ ch_nl :: lit "# A" ++ [ch_nl])
               ++ lit "```" ++ [ch_nl])
  = lit "# A".
Proof.
  rewrite (fenced_reply (lit " ") [ch_nl] (lit "markdown" ++ ch_nl :: lit "# A" ++ [ch_nl]));
    [reflexivity..|].
  apply (bool_decide_eq_false_1 (ch_backtick ∈ lit "markdown" ++ ch_nl :: lit "# A" ++ [ch_nl])). reflexivity.
Defined.

(** ** A reply that repeats the outline *)

Lemma re_id_match ds rest :
  ds ≠ [] → forallb is_digit ds = true →
  regex_match re_id (72%N :: ds ++ ch_pipe :: rest) = Some (<[1 := 72%N :: ds]> ∅).
Proof.
  intros Hne Hds. unfold re_id. rewrite regex_match_bos.
  cbn [m app atom_ok N.eqb Pos.eqb].
  erewrite m_rep_munch; [reflexivity|done|done|by destruct ds; simpl; [|lia]|done|].
  cbn [m atom_ok]. rewrite N.eqb_refl.
  change (0 + 1 + length ds) with (S (length ds)).
  change (72%N :: ds ++ ch_pipe :: rest) with ((72%N :: ds) ++ ch_pipe :: rest).
  by rewrite Nat.sub_0_r, (take_app_length' (72%N :: ds)) by done.
Qed.

Lemma trim_fixed_last s :
  trim s = s → s ≠ [] → ∃ t d, s = t ++ [d] ∧ is_space d = false.
Proof.
  intros Ht Hs. destruct (trim_fixed _ Ht Hs) as (c & Hc & Hsp).
  destruct s as [|c' s]; [done|]. simplify_eq/=.
  unfold trim in Ht. rewrite trim_start_fixed in Ht by done.
  apply (f_equal reverse) in Ht. rewrite reverse_involutive in Ht.
  destruct (reverse (c :: s)) as [|d t] eqn:E.
  { apply (f_equal reverse) in E. by rewrite reverse_involutive in E. }
  exists (reverse t), d. split.
  - apply (f_equal reverse) in E. by rewrite reverse_involutive, reverse_cons in E.
  - by apply trim_start_head in Ht.
Qed.

(** A text that starts and ends with a character that is no white space
    is left as it is by [trim]. *)
Lemma trim_id s c d :
  head s = Some c → last s = Some d → is_space c = false → is_space d = false →
  trim s = s.
Proof.
  intros Hc Hd Hsc Hsd. destruct s as [|x s]; [done|]. simplify_eq/=.
  destruct (decide (s = [])) as [->|Hs].
  - unfold trim. simpl. rewrite Hsc. simpl. by rewrite Hsc.
  - apply last_Some in Hd as [t Ht]. destruct t as [|y t]; simplify_eq/=; try done.
    by apply (trim_between [] []).
Qed.

Lemma head_join l ls : l ≠ [] → head (join_nl (l :: ls)) = head l.
Proof. destruct l; [done|]. by destruct ls. Qed.

Lemma last_join ls l : last ls = Some l → l ≠ [] → last (join_nl ls) = last l.
Proof.
  intros Hl Hne. induction ls as [|x ls IH]; [done|].
  destruct ls as [|y ls]; [by simplify_eq/=|].
  change (join_nl (x :: y :: ls)) with (x ++ ch_nl :: join_nl (y :: ls)).
  rewrite last_app. change (last (x :: y :: ls)) with (last (y :: ls)) in Hl.
  rewrite last_cons, IH by done.
  destruct l as [|a l]; [done|]. rewrite last_cons. by destruct (last l).
Qed.

Lemma has_fence_join ls :
  Forall (λ l, has_fence l = false) ls → has_fence (join_nl ls) = false.
Proof.
  induction 1 as [|l ls Hl Hls IH]; [done|]. destruct ls as [|l' ls]; [done|].
  change (join_nl (l :: l' :: ls)) with (l ++ ch_nl :: join_nl (l' :: ls)).
  by apply has_fence_sep.
Qed.

Lemma has_fence_heading_line n text :
  has_fence text = false → has_fence (heading_line n text) = false.
Proof.
  intros H. unfold heading_line. apply has_fence_sep; [|done..].
  apply has_fence_free. by intros [? _]%elem_of_replicate.
Qed.

Lemma parseHeadings_extracted content : Forall extracted (parseHeadings content).
Proof.
  apply Forall_forall. intros h Hh.
  destruct (parseHeadings_text _ _ Hh) as (? & ? & ? & _).
  apply parseHeadings_elem in Hh as (_ & _ & ?). done.
Qed.

Lemma heading_line_newline_free n text :
  no_line_terminator text = true → newline_free (heading_line n text) = true.
Proof.
  intros H. unfold heading_line.
  change (?a ++ ch_space :: ?b) with (a ++ [ch_space] ++ b).
  rewrite !newline_free_app, (no_line_terminator_newline_free text) by done.
  rewrite andb_true_r. unfold newline_free. by induction n.
Qed.

Lemma heading_line_no_line_terminator n text :
  no_line_terminator text = true → no_line_terminator (heading_line n text) = true.
Proof.
  intros H. unfold heading_line, no_line_terminator in *.
  rewrite forallb_app. cbn [forallb]. rewrite H, !andb_true_r. by induction n.
Qed.

Lemma heading_line_nonblank n text : 1 ≤ n → trim (heading_line n text) ≠ [].
Proof. destruct n; [lia|]. intros _. by apply trim_nonblank. Qed.

Lemma extracted_outline_line h :
  extracted h →
  newline_free (outline_line h) = true ∧ trim (outline_line h) ≠ [] ∧
  strip_id (outline_line h) = heading_line (HeadingInfo.level h) (HeadingInfo.text h) ∧
  regex_match re_id (outline_line h) = Some (<[1 := HeadingInfo.id h]> ∅).
Proof.
  intros (Hid & Hlv & Hne & Hnlt). unfold outline_line. split_and!.
  - change (?a ++ ch_pipe :: ?b) with (a ++ [ch_pipe] ++ b).
    by rewrite !newline_free_app, heading_id_newline_free, heading_line_newline_free.
  - destruct (HeadingInfo.id h) as [|c ds]; [done|]. simpl in Hid.
    apply andb_prop in Hid as [[->%N.eqb_eq _]%andb_prop _]. by apply trim_nonblank.
  - destruct (HeadingInfo.id h) as [|c ds]; [done|]. simpl in Hid.
    apply andb_prop in Hid as [[->%N.eqb_eq Hds%bool_decide_eq_true_1]%andb_prop Hd].
    apply strip_id_heading; [done..| |by apply heading_line_no_line_terminator].
    unfold heading_line. by destruct (replicate _ _).
  - destruct (HeadingInfo.id h) as [|c ds]; [done|]. simpl in Hid.
    apply andb_prop in Hid as [[->%N.eqb_eq Hds%bool_decide_eq_true_1]%andb_prop Hd].
    by apply re_id_match.
Qed.

Lemma filter_all {A} (P : A → Prop) `{∀ x, Decision (P x)} (l : list A) :
  Forall P l → filter P l = l.
Proof.
  induction 1 as [|x l Hx Hl IH]; [done|]. by rewrite filter_cons, decide_True, IH.
Qed.

Lemma nonblank_lines_join_all ls :
  Forall (λ l, newline_free l = true ∧ trim l ≠ []) ls →
  nonblank_lines (join_nl ls) = ls.
Proof.
  intros H. rewrite nonblank_lines_join.
  - apply filter_all. eapply Forall_impl; [done|]. by intros l [_ ?].
  - induction H as [|l ls [Hl _] _ IH]; [done|]. simpl. by rewrite Hl.
Qed.

(** The outline text of extracted records, the outline sent for it, and
    the lines of both. *)
Lemma outline_of_extracted hs :
  Forall extracted hs →
  let hls := (λ h, heading_line (HeadingInfo.level h) (HeadingInfo.text h)) <$> hs in
  nonblank_lines (outlineText hs) = outline_line <$> hs ∧
  currentOutline (outlineText hs) = join_nl hls ∧
  nonblank_lines (join_nl hls) = hls ∧
  matchHeadingsWithIds (outline_line <$> hs) hls = outline_line <$> hs.
Proof.
  intros Hhs hls.
  assert (Forall (λ l, newline_free l = true ∧ trim l ≠ []) (outline_line <$> hs)) as Hols.
  { apply Forall_fmap. eapply Forall_impl; [done|].
    by intros h (? & ? & _)%extracted_outline_line. }
  assert (Forall (λ l, newline_free l = true ∧ trim l ≠ []) hls) as Hhls.
  { apply Forall_fmap. eapply Forall_impl; [done|]. intros h (_ & ? & _ & ?). split.
    - by apply heading_line_newline_free.
    - by apply heading_line_nonblank. }
  split_and!.
  - by apply nonblank_lines_join_all.
  - unfold currentOutline, outlineText. destruct hs as [|h hs']; [done|].
    rewrite split_join.
    + f_equal. rewrite <-list_fmap_compose. apply Forall_fmap_ext_1.
      eapply Forall_impl; [done|]. by intros x (_ & _ & ? & _)%extracted_outline_line.
    + clear -Hols. induction Hols as [|l ls [Hl _] _ IH]; [done|]. simpl. by rewrite Hl.
    + done.
  - by apply nonblank_lines_join_all.
  - rewrite matchHeadingsWithIds_prefixed.
    2:{ apply Forall_fmap. eapply Forall_impl; [done|].
        intros h (_ & _ & _ & Hm)%extracted_outline_line.
        unfold compose. rewrite Hm. by eexists. }
    unfold reattach_positional. apply list_eq. intros i.
    rewrite list_lookup_imap. subst hls. rewrite !list_lookup_fmap.
    destruct (hs !! i) as [h|] eqn:Hh; [|done]. simpl.
    rewrite Forall_forall in Hhs.
    destruct (extracted_outline_line h (Hhs h (list_elem_of_lookup_2 _ _ _ Hh)))
      as (_ & _ & _ & ->).
    by rewrite group_insert_eq.
Qed.

(** X14.  When the service sends back the outline it was sent, the text
    area keeps the outline of the document: every line gets its identifier
    back.  The headings are taken without white space at their end and
    without three backticks in a row, which the cleaning of the reply would
    take away. *)
Theorem echo_keeps_outline content :
  let hs := parseHeadings content in
  Forall (λ h, trim (HeadingInfo.text h) = HeadingInfo.text h ∧
               has_fence (HeadingInfo.text h) = false) hs →
  enhance (outlineText hs) (currentOutline (outlineText hs)) = outlineText hs.
Proof.
  intros hs Htx. pose proof (parseHeadings_extracted content) as Hhs. fold hs in Hhs.
  clearbody hs.
  destruct (outline_of_extracted hs Hhs) as (Hta & Hsent & Hlines & Hids).
  unfold enhance. rewrite Hta, Hsent.
  set (hls := (λ h, heading_line (HeadingInfo.level h) (HeadingInfo.text h)) <$> hs) in *.
  assert (clean_reply (join_nl hls) = join_nl hls) as ->; [|by rewrite Hlines, Hids].
  assert (has_fence (join_nl hls) = false) as Hfence.
  { apply has_fence_join, Forall_fmap. eapply Forall_impl; [exact Htx|].
    intros h [_ ?]. unfold compose. by apply has_fence_heading_line. }
  assert (trim (join_nl hls) = join_nl hls) as Htrim.
  2:{ unfold clean_reply, re_fence, re_fence_markdown. rewrite Htrim.
      change (lit "```markdown") with (lit "```" ++ lit "markdown").
      rewrite remove_all_no_fence by done.
      by rewrite <-(app_nil_r (lit "```")), remove_all_no_fence. }
  destruct hs as [|h0 hs0]; [done|].
  destruct (proj2 (last_is_Some (h0 :: hs0))) as [hz Hz]; [done|].
  pose proof Htx as Htx'. rewrite Forall_forall in Htx', Hhs.
  assert (hz ∈ h0 :: hs0) as Hin.
  { apply last_Some in Hz as [t ->]. apply elem_of_app. right. by left. }
  destruct (Htx' hz Hin) as [Htrim _]. destruct (Hhs hz Hin) as (_ & _ & Hzne & _).
  destruct (trim_fixed_last _ Htrim Hzne) as (t & d & Hd & Hsd).
  destruct (Hhs h0 ltac:(by left)) as (_ & Hlv & _).
  apply (trim_id _ ch_hash d); [| |done..].
  - subst hls. rewrite fmap_cons, head_join.
    + unfold heading_line. by destruct (HeadingInfo.level h0); [lia|].
    + unfold heading_line. by destruct (replicate _ _).
  - rewrite (last_join _ (heading_line (HeadingInfo.level hz) (HeadingInfo.text hz))).
    + unfold heading_line. rewrite Hd.
      change (?a ++ ch_space :: t ++ [d]) with (a ++ (ch_space :: t) ++ [d]).
      by rewrite !(assoc_L (++)), last_snoc.
    + subst hls. by rewrite fmap_last, Hz.
    + unfold heading_line. by destruct (replicate _ _).
Qed.

Lemma echo_keeps_outline_witness :
  let content := lit "# A" ++ ch_nl :: lit "x" ++ ch_nl :: lit "## B `c`" in
  enhance (outlineText (parseHeadings content))
          (currentOutline (outlineText (parseHeadings content)))
  = lit "H1|# A" ++ ch_nl :: lit "H2|## B `c`".
Proof.
  intros content. rewrite (echo_keeps_outline content); [reflexivity|].
  vm_compute. repeat constructor.
Defined.

(** ** What the outcome depends on *)

(** The outcome depends on the edited entries through the last entry of
    each identifier and the entries tagged [NEW] only. *)
Lemma reconcile_ext hs ta ta' content :
  (∀ k, last_edit (parse_edited ta) k = last_edit (parse_edited ta') k) →
  filter (λ e, Edited.id e = lit "NEW") (parse_edited ta)
  = filter (λ e, Edited.id e = lit "NEW") (parse_edited ta') →
  reconcile hs ta content = reconcile hs ta' content.
Proof.
  intros Hlast Hnew. unfold reconcile.
  set (es := parse_edited ta) in *. set (es' := parse_edited ta') in *.
  pose proof (collect_step_news es [] ∅) as Hnh.
  pose proof (collect_step_news es' [] ∅) as Hnh'.
  pose proof (collect_step_lookup es [] ∅) as Hem.
  pose proof (collect_step_lookup es' [] ∅) as Hem'.
  pose proof (collect_step_NEW es [] ∅) as HN.
  pose proof (collect_step_NEW es' [] ∅) as HN'.
  destruct (foldl collect_step ([], ∅) es) as [nh em].
  destruct (foldl collect_step ([], ∅) es') as [nh' em'].
  simpl in Hnh, Hnh', Hem, Hem', HN, HN'.
  assert (nh = nh') as <- by by rewrite Hnh, Hnh', Hnew.
  assert (em = em') as <-.
  { apply map_eq. intros k. destruct (decide (k = lit "NEW")) as [->|Hk].
    - by rewrite HN, HN'.
    - by rewrite Hem, Hem', Hlast. }
  assert ((list_to_set (Edited.id <$> es) : gset (list N))
          = list_to_set (Edited.id <$> es')) as <-; [|done].
  apply set_eq. intros k. rewrite !elem_of_list_to_set.
  pose proof (last_edit_None es k) as H1. pose proof (last_edit_None es' k) as H2.
  rewrite Hlast in H1. split; intros Hin.
  - destruct (decide (k ∈ Edited.id <$> es')) as [|Hn]; [done|].
    apply H2, H1 in Hn. done.
  - destruct (decide (k ∈ Edited.id <$> es)) as [|Hn]; [done|].
    apply H1, H2 in Hn. done.
Qed.

(** X17.  When two edited lines carry the same identifier, the later one
    wins: the earlier one can be left out of the text area without any change
    in what [applyChanges] does, the notice included. *)
Theorem repeated_id_last_wins hs ta ta' content es1 e es2 :
  parse_edited ta = es1 ++ e :: es2 → parse_edited ta' = es1 ++ es2 →
  Edited.id e ≠ lit "NEW" → Edited.id e ∈ Edited.id <$> es2 →
  reconcile hs ta content = reconcile hs ta' content ∧
  applyChanges hs ta content = applyChanges hs ta' content.
Proof.
  intros E E' Hnew Hin.
  assert (reconcile hs ta content = reconcile hs ta' content) as H.
  { apply reconcile_ext; rewrite E, E'.
    - intros k. destruct (decide (Edited.id e = k)) as [<-|Hk]; [|by apply last_edit_app_ne].
      unfold last_edit. rewrite !filter_app, filter_cons, decide_True by done.
      apply list_elem_of_fmap in Hin as (e' & He' & Hin).
      assert (e' ∈ filter (λ x, Edited.id x = Edited.id e) es2) as Hf.
      { by apply list_elem_of_filter. }
      destruct (filter _ es2) as [|x f2]; [by apply elem_of_nil in Hf|].
      rewrite !last_app, (last_cons e).
      destruct (last (x :: f2)) eqn:El; [done|]. by apply last_None in El.
    - by rewrite !filter_app, filter_cons, decide_False. }
  split; [done|]. unfold applyChanges. by rewrite H.
Qed.

Lemma repeated_id_last_wins_witness :
  let content := lit "# A" in
  applyChanges (parseHeadings content) (lit "H1|## Early" ++ ch_nl :: lit "H1|### Late") content
  = (Some (lit "### Late"), Updated 1 0 0).
Proof.
  intros content.
  destruct (repeated_id_last_wins (parseHeadings content)
              (lit "H1|## Early" ++ ch_nl :: lit "H1|### Late") (lit "H1|### Late") content
              [] (Edited.mk (lit "H1") 2 (lit "Early")) [Edited.mk (lit "H1") 3 (lit "Late")])
    as [_ ->]; [reflexivity|reflexivity|done|by left|reflexivity].
Defined.

(** X18.  The order of two neighbouring edited lines that carry different
    identifiers is not used: with the two lines swapped, [applyChanges] does
    the same.  Moving a heading in the outline does not move it in the
    document. *)
Theorem order_of_lines_is_ignored hs ta ta' content es1 e1 e2 es2 :
  parse_edited ta = es1 ++ e1 :: e2 :: es2 →
  parse_edited ta' = es1 ++ e2 :: e1 :: es2 →
  Edited.id e1 ≠ Edited.id e2 →
  reconcile hs ta content = reconcile hs ta' content ∧
  applyChanges hs ta content = applyChanges hs ta' content.
Proof.
  intros E E' Hne.
  assert (∀ k, filter (λ x, Edited.id x = k) (es1 ++ e1 :: e2 :: es2)
               = filter (λ x, Edited.id x = k) (es1 ++ e2 :: e1 :: es2)) as Hf.
  { intros k. rewrite !filter_app, !filter_cons.
    destruct (decide (Edited.id e1 = k)) as [<-|]; [|done].
    destruct (decide (Edited.id e2 = Edited.id e1)) as [Heq|]; [by destruct Hne|done]. }
  assert (reconcile hs ta content = reconcile hs ta' content) as H.
  { apply reconcile_ext; rewrite E, E'; [|apply Hf].
    intros k. unfold last_edit. by rewrite Hf. }
  split; [done|]. unfold applyChanges. by rewrite H.
Qed.

Lemma order_of_lines_is_ignored_witness :
  let content := lit "# A" ++ ch_nl :: lit "# B" in
  applyChanges (parseHeadings content) (lit "H2|# B" ++ ch_nl :: lit "H1|# A") content
  = (None, NoChanges).
Proof.
  intros content.
  destruct (order_of_lines_is_ignored (parseHeadings content)
              (lit "H2|# B" ++ ch_nl :: lit "H1|# A") (lit "H1|# A" ++ ch_nl :: lit "H2|# B")
              content [] (Edited.mk (lit "H2") 1 (lit "B")) (Edited.mk (lit "H1") 1 (lit "A")) [])
    as [_ ->]; [reflexivity|reflexivity|done|reflexivity].
Defined.

(** ** When a change is reported *)

Lemma heading_at_elem hs h :
  NoDup (HeadingInfo.line <$> hs) → h ∈ hs → heading_at hs (HeadingInfo.line h) = Some h.
Proof.
  induction hs as [|x hs IH]; [by intros _ ?%elem_of_nil|].
  rewrite fmap_cons, NoDup_cons. intros [Hx Hnd] Hin. rewrite heading_at_cons.
  apply elem_of_cons in Hin as [->|Hin]; [by rewrite Nat.eqb_refl|].
  destruct (Nat.eqb_spec (HeadingInfo.line x) (HeadingInfo.line h)) as [E|_]; [|auto].
  destruct Hx. rewrite E. apply list_elem_of_fmap. eauto.
Qed.

Lemma update_step_touches del em ls rm ch h :
  HeadingInfo.line h < length ls →
  ∃ ls' rm',
    update_step del em (Patch ls rm ch) h = Patch ls' rm' (ch || touches del em ls h) ∧
    length ls' = length ls ∧
    ∀ j, j ≠ HeadingInfo.line h → ls' !! j = ls !! j.
Proof.
  intros Hlt. unfold update_step, touches. cbn [p_lines linesToRemove changesMade].
  destruct (decide (HeadingInfo.id h ∈ del)) as [Hdel|Hdel].
  { rewrite bool_decide_eq_true_2, orb_true_r by done. by eexists _, _. }
  rewrite (bool_decide_eq_false_2 _ Hdel). cbn [orb].
  destruct (em !! HeadingInfo.id h) as [[lv tx]|].
  - destruct (decide (array_get (HeadingInfo.line h) ls ≠ heading_line lv tx)) as [Hd|Hd].
    + rewrite bool_decide_eq_true_2, orb_true_r by done. eexists _, _. split_and!; [done| |].
      * rewrite array_set_in_range by done. apply length_insert.
      * intros j Hj. rewrite array_set_in_range by done. by rewrite list_lookup_insert_ne.
    + rewrite bool_decide_eq_false_2, orb_false_r by done. by eexists _, _.
  - rewrite orb_false_r. by eexists _, _.
Qed.

Lemma existsb_ext_elem {A} (f g : A → bool) l :
  (∀ x, x ∈ l → f x = g x) → existsb f l = existsb g l.
Proof.
  induction l as [|x l IH]; intros H; [done|]. simpl.
  rewrite (H x) by left. rewrite IH; [done|]. intros y Hy. apply H. by right.
Qed.

(** The flag after the loop: raised before it, or at one of the records. *)
Lemma update_loop_touches del em hs ls rm ch :
  NoDup (HeadingInfo.line <$> hs) →
  Forall (λ h, HeadingInfo.line h < length ls) hs →
  changesMade (foldl (update_step del em) (Patch ls rm ch) hs)
  = ch || existsb (touches del em ls) hs.
Proof.
  revert ls rm ch. induction hs as [|h hs IH]; intros ls rm ch Hnd Hin; cbn [foldl].
  { simpl. by rewrite orb_false_r. }
  rewrite fmap_cons, NoDup_cons in Hnd. destruct Hnd as [Hh Hnd].
  apply Forall_cons in Hin as [Hlt Hin].
  destruct (update_step_touches del em ls rm ch h Hlt) as (ls' & rm' & -> & Hlen & Hls').
  rewrite IH; [|done|by rewrite Hlen]. cbn [existsb]. rewrite <-orb_assoc. do 2 f_equal.
  apply existsb_ext_elem. intros x Hx. unfold touches, array_get.
  rewrite Hls'; [done|]. intros E. apply Hh. rewrite <-E. apply list_elem_of_fmap. eauto.
Qed.

Lemma filter_none {A} (P : A → Prop) `{∀ x, Decision (P x)} (l : list A) :
  (∀ x, x ∈ l → ¬ P x) → filter P l = [].
Proof.
  induction l as [|x l IH]; intros Hl; [done|].
  rewrite filter_cons, decide_False by (apply Hl; left).
  apply IH. intros y Hy. apply Hl. by right.
Qed.

Section reconcile_flag.
Context (hs : list HeadingInfo) (ta content : list N).
Hypothesis Hsorted : StronglySorted lt (HeadingInfo.line <$> hs).
Hypothesis Hrange : Forall (λ h, HeadingInfo.line h < length (split_nl content)) hs.
Hypothesis Hnew : Forall (λ h, HeadingInfo.id h ≠ lit "NEW") hs.

(** No change is reported exactly when no record is missing, no entry is
    tagged [NEW] and every line rebuilt from an entry is the line of the
    document. *)
Lemma reconcile_flag :
  let entries := parse_edited ta in
  o_changed (reconcile hs ta content) = false ↔
  missing hs entries = [] ∧ new_lines entries = [] ∧
  rewritten hs entries (split_nl content) = split_nl content.
Proof.
  intros entries. unfold reconcile. fold entries.
  pose proof (collect_step_news entries [] ∅) as Hnh.
  pose proof (collect_step_lookup entries [] ∅) as Hem.
  destruct (foldl collect_step ([], ∅) entries) as [nh em]. simpl in Hnh, Hem.
  cbn [o_changed]. set (del := filter _ _).
  assert (filter (λ h, HeadingInfo.id h ∈ del) hs = missing hs entries) as Hmiss.
  { apply filter_ext_elem. intros h Hh. unfold del. rewrite deletedIds_elem.
    split; [tauto|]. split; [|done]. apply list_elem_of_fmap. eauto. }
  assert (NoDup (HeadingInfo.line <$> hs)) as Hnd by by apply StronglySorted_lt_NoDup.
  rewrite update_loop_touches by done. cbn [orb]. rewrite orb_false_iff.
  assert (bool_decide (0 < length nh) = false ↔ new_lines entries = []) as ->.
  { unfold new_lines. rewrite Hnh.
    by destruct (filter _ entries). }
  assert (existsb (touches del em (split_nl content)) hs = false ↔
          missing hs entries = [] ∧
          rewritten hs entries (split_nl content) = split_nl content) as ->; [|tauto].
  rewrite <-Hmiss. rewrite Forall_forall in Hnew, Hrange.
  assert (∀ h, h ∈ hs →
    match em !! HeadingInfo.id h with
    | Some (lv, tx) =>
        bool_decide (array_get (HeadingInfo.line h) (split_nl content) ≠ heading_line lv tx)
    | None => false
    end = false ↔
    rewritten hs entries (split_nl content) !! HeadingInfo.line h
    = split_nl content !! HeadingInfo.line h) as Hline.
  { intros h Hh. rewrite Hem by auto. unfold rewritten, rewrite_line.
    rewrite list_lookup_imap, heading_at_elem by done.
    destruct (lookup_lt_is_Some_2 _ _ (Hrange h Hh)) as [l Hl].
    unfold array_get. rewrite Hl. simpl.
    destruct (last_edit entries (HeadingInfo.id h)) as [e|]; [|done].
    rewrite bool_decide_eq_false. split; [by intros ->%dec_stable|by intros [= ->] ?]. }
  split.
  - intros Hex. assert (∀ h, h ∈ hs → touches del em (split_nl content) h = false) as Hall.
    { intros h Hh. destruct (touches _ _ _ h) eqn:Ht; [|done].
      assert (existsb (touches del em (split_nl content)) hs = true) as Hc; [|congruence].
      apply existsb_exists. exists h. split; [by apply list_elem_of_In|done]. }
    split.
    + apply filter_none. intros h Hh Hdel. specialize (Hall h Hh). unfold touches in Hall.
      by rewrite bool_decide_eq_true_2 in Hall.
    + apply list_eq. intros j. destruct (decide (j ∈ HeadingInfo.line <$> hs)) as [Hj|Hj].
      * apply list_elem_of_fmap in Hj as (h & -> & Hh). apply Hline; [done|].
        specialize (Hall h Hh). unfold touches in Hall. by apply orb_false_elim in Hall as [_ ?].
      * by apply rewritten_other.
  - intros [Hmis Hrw]. apply not_true_iff_false.
    intros (h & Hh%list_elem_of_In & Ht)%existsb_exists.
    unfold touches in Ht. apply orb_prop in Ht as [Ht|Ht].
    + apply bool_decide_eq_true_1 in Ht.
      assert (h ∈ filter (λ h, HeadingInfo.id h ∈ del) hs) as Hf by by apply list_elem_of_filter.
      rewrite Hmis in Hf. by apply elem_of_nil in Hf.
    + assert (rewritten hs entries (split_nl content) !! HeadingInfo.line h
              = split_nl content !! HeadingInfo.line h) as Hl by by rewrite Hrw.
      apply Hline in Hl; [congruence|done].
Qed.
End reconcile_flag.

(** X19.  Against the records extracted from the document, "No changes
    detected" is shown, and the document is not written, exactly when no
    record is missing from the edited lines, no edited line is tagged [NEW]
    and every heading line rebuilt from its entry is the line the document
    has already. *)
Theorem no_changes_exactly ta content :
  let hs := parseHeadings content in
  let entries := parse_edited ta in
  applyChanges hs ta content = (None, NoChanges) ↔
  missing hs entries = [] ∧ new_lines entries = [] ∧
  rewritten hs entries (split_nl content) = split_nl content.
Proof.
  intros hs entries. subst entries.
  pose proof (reconcile_flag hs ta content (scan_lines_sorted _ _ _)
                (parseHeadings_in_range content) (parseHeadings_not_NEW content)) as H.
  cbv zeta in H. rewrite <-H. unfold applyChanges.
  by destruct (o_changed (reconcile hs ta content)).
Qed.

Lemma keep_from_filter {A} (P : A → Prop) `{∀ x, Decision (P x)} keep i (l : list A) :
  (∀ j x, l !! j = Some x → keep (i + j) = bool_decide (P x)) →
  keep_from keep i l = filter P l.
Proof.
  revert i. induction l as [|x l IH]; intros i Hl; [done|]. simpl.
  rewrite filter_cons. pose proof (Hl 0 x eq_refl) as H0. rewrite Nat.add_0_r in H0.
  rewrite H0, (IH (S i)).
  - destruct (decide (P x)); [by rewrite bool_decide_eq_true_2|by rewrite bool_decide_eq_false_2].
  - intros j y Hy. replace (S i + j) with (i + S j) by lia. by apply Hl.
Qed.

(** The lines of the document that are no heading lines. *)
Lemma without_heading_lines content :
  without_indices (HeadingInfo.line <$> parseHeadings content) (split_nl content)
  = filter (λ l, regex_match re_heading l = None) (split_nl content).
Proof.
  apply keep_from_filter. intros j l Hl. cbn [Nat.add]. apply bool_decide_ext. split.
  - intros Hj. destruct (regex_match re_heading l) as [mt|] eqn:Hmt; [|done].
    destruct (scan_lines_complete _ 0 0 _ _ _ Hl Hmt) as (h & Hh & Hline & _).
    destruct Hj. apply list_elem_of_fmap. exists h. split; [done|apply Hh].
  - intros Hnone (h & -> & (Hl' & (mt & Hmt & _) & _)%parseHeadings_elem)%list_elem_of_fmap.
    congruence.
Qed.

(** X20.  A text area without any line that parses as an edited heading
    (an empty one, say) removes every heading line from the document and
    keeps the other lines; the notice counts the headings as removed. *)
Theorem outline_without_entries ta content :
  parse_edited ta = [] →
  let hs := parseHeadings content in
  let others := filter (λ l, regex_match re_heading l = None) (split_nl content) in
  applyChanges hs ta content
  = if decide (hs = []) then (None, NoChanges)
    else (Some (join_nl others), Updated 0 (length hs) 0).
Proof.
  intros E hs others.
  destruct (reconcile_extracted ta content) as (Hlines & _ & Hdel & Hadd).
  pose proof (modified_count hs ta content) as Hmod.
  pose proof (reconcile_flag hs ta content (scan_lines_sorted _ _ _)
                (parseHeadings_in_range content) (parseHeadings_not_NEW content)) as Hflag.
  fold hs in Hlines, Hdel, Hadd. rewrite E in *. cbv zeta in Hflag.
  assert (missing hs [] = hs) as Hmis.
  { unfold missing. apply filter_all, Forall_forall. intros h _. apply not_elem_of_nil. }
  assert (rewritten hs [] (split_nl content) = split_nl content) as Hrw.
  { unfold rewritten. apply list_eq. intros j. rewrite list_lookup_imap.
    destruct (split_nl content !! j) as [l|]; [|done]. simpl. unfold rewrite_line.
    by destruct (heading_at hs j). }
  rewrite Hmis, Hrw in *. unfold applyChanges.
  destruct (decide (hs = [])) as [Hnil|Hne].
  - assert (o_changed (reconcile hs ta content) = false) as ->; [|done].
    by apply Hflag.
  - assert (o_changed (reconcile hs ta content) = true) as ->.
    { apply not_false_iff_true. by intros (? & _)%Hflag. }
    rewrite Hlines, Hdel, Hadd, Hmod. unfold hs at 1. rewrite without_heading_lines.
    by rewrite app_nil_r.
Qed.

Lemma outline_without_entries_witness :
  applyChanges (parseHeadings (lit "# A" ++ ch_nl :: lit "text" ++ ch_nl :: lit "## B")) []
               (lit "# A" ++ ch_nl :: lit "text" ++ ch_nl :: lit "## B")
  = (Some (lit "text"), Updated 0 2 0).
Proof.
  by rewrite (outline_without_entries []
                (lit "# A" ++ ch_nl :: lit "text" ++ ch_nl :: lit "## B") eq_refl).
Defined.

(** ** The outline as it was produced, on any document *)

Lemma re_edited_tail_blank i0 (c0 : gmap nat (list N)) n x :
  1 ≤ n ≤ 6 → is_space x = true → is_line_terminator x = false →
  m_rep ASpace 0 None i0 (replicate n ch_hash ++ [ch_space; x])
    (λ i1 s1, m_rep (AChar ch_hash) 1 (Some 6) i1 s1
      (λ i2 s2, m_rep ASpace 1 None i2 s2
        (λ i3 s3, m_rep ADot 1 None i3 s3
          (λ i4 s4, match s4 with
                    | [] => Some (<[3:=take (i4 - i3) s3]> (<[2:=take (i2 - i1) s1]> c0))
                    | _ :: _ => None
                    end))))
  = Some (<[3 := [x]]> (<[2 := replicate n ch_hash]> c0)).
Proof.
  intros Hn Hx Hlt. rewrite <-(app_nil_l (replicate n ch_hash ++ _)).
  apply m_rep_munch; [done| |simpl; lia|done|].
  { destruct n; [lia|]. done. }
  cbn [length]. rewrite Nat.add_0_r.
  apply m_rep_munch; [by apply forallb_replicate|done| | |].
  { rewrite length_replicate. lia. }
  { rewrite length_replicate. intros ? [= <-]. lia. }
  rewrite take_span.
  cbn [m_rep atom_ok pred fmap option_fmap option_map exhausted negb andb].
  rewrite Hx, Hlt. change (is_space ch_space) with true. cbn [andb negb].
  by replace (S (S (i0 + length (replicate n ch_hash))) - S (i0 + length (replicate n ch_hash)))
    with 1 by lia.
Qed.

Lemma parse_edited_line_blank ds n x :
  ds ≠ [] → forallb is_digit ds = true → 1 ≤ n ≤ 6 →
  is_space x = true → is_line_terminator x = false →
  parse_edited_line (72%N :: ds ++ ch_pipe :: replicate n ch_hash ++ [ch_space; x])
  = Some (Edited.mk (72%N :: ds) n []).
Proof.
  intros Hne Hds Hn Hx Hlt. unfold parse_edited_line, re_edited. rewrite regex_match_bos.
  cbn [m app atom_ok N.eqb Pos.eqb].
  erewrite m_rep_munch; [|done|done|by destruct ds; simpl; [|lia]|done|].
  2:{ cbn beta iota. rewrite N.eqb_refl.
      change (72%N :: ds ++ ?s) with ((72%N :: ds) ++ s).
      replace (1 + length ds - 0) with (0 + length (72%N :: ds) - 0) by (simpl; lia).
      rewrite take_span. by apply re_edited_tail_blank. }
  simpl. rewrite group_insert_eq, !group_insert_ne, !group_insert_eq by done.
  rewrite group_insert_ne, group_insert_eq by done.
  rewrite length_replicate. do 2 f_equal.
  unfold trim. simpl. by rewrite Hx.
Qed.

Lemma outline_line_parse_any content h :
  h ∈ parseHeadings content → parse_edited_line (outline_line h) = Some (trimmed_entry h).
Proof.
  intros (_ & (mt & Hmt & Hlv & Htx) & Hid)%parseHeadings_elem.
  apply re_heading_inv_greedy in Hmt
    as (n & ws & txt & _ & Hn & _ & _ & Hnlt & G1 & G2 & Hshape).
  rewrite G1, length_replicate in Hlv. rewrite G2 in Htx.
  unfold outline_line, heading_line, trimmed_entry. rewrite Hlv, Htx.
  destruct Hshape as [(c & t & -> & Hc)|(x & -> & Hx)].
  - apply (parse_edited_line_match (HeadingInfo.id h) [] n [ch_space] c t); try done.
    by apply heading_id_outline_id.
  - destruct (HeadingInfo.id h) as [|c ds]; [done|]. simpl in Hid.
    apply andb_prop in Hid as [[->%N.eqb_eq Hds%bool_decide_eq_true_1]%andb_prop Hd].
    assert (trim [x] = []) as -> by (unfold trim; simpl; by rewrite Hx).
    apply parse_edited_line_blank; try done.
    simpl in Hnlt. by destruct (is_line_terminator x).
Qed.

Lemma omap_fmap_Some {A B C} (f : B → option C) (g : A → B) (h : A → C) (l : list A) :
  (∀ x, x ∈ l → f (g x) = Some (h x)) → omap f (g <$> l) = h <$> l.
Proof.
  induction l as [|x l IH]; intros Hl; [done|]. rewrite !fmap_cons.
  rewrite (omap_cons_Some _ _ (h x)) by (apply Hl; left).
  f_equal. apply IH. intros y Hy. apply Hl. by right.
Qed.

Lemma parse_outlineText_any content :
  parse_edited (outlineText (parseHeadings content)) = trimmed_entry <$> parseHeadings content.
Proof.
  unfold parse_edited.
  destruct (outline_of_extracted _ (parseHeadings_extracted content)) as [-> _].
  apply omap_fmap_Some. intros h Hh. by eapply outline_line_parse_any.
Qed.

Lemma last_edit_fmap (f : HeadingInfo → Edited.t) hs h :
  (∀ x, Edited.id (f x) = HeadingInfo.id x) →
  NoDup (HeadingInfo.id <$> hs) → h ∈ hs →
  last_edit (f <$> hs) (HeadingInfo.id h) = Some (f h).
Proof.
  intros Hf. unfold last_edit. induction hs as [|h' hs IH]; [by intros _ ?%elem_of_nil|].
  rewrite !fmap_cons, NoDup_cons, filter_cons. intros [Hnot Hnd] Hin. rewrite Hf.
  assert (∀ x, x ∈ hs → HeadingInfo.id x ≠ HeadingInfo.id h') as Hother.
  { intros x Hx E. apply Hnot. rewrite <-E. apply list_elem_of_fmap. eauto. }
  apply elem_of_cons in Hin as [->|Hin].
  - rewrite decide_True by done. rewrite last_cons.
    rewrite filter_none; [done|].
    intros e (x & -> & Hx)%list_elem_of_fmap. rewrite Hf. by apply Hother.
  - rewrite decide_False by (apply not_eq_sym, Hother, Hin). auto.
Qed.

Lemma normalised_line_fixed l : normalised_line l = l ↔ canonical_line l = true.
Proof.
  unfold normalised_line, canonical_line.
  destruct (regex_match re_heading l); [|done].
  rewrite bool_decide_eq_true. split; by intros ->.
Qed.

Lemma normalised_lines_fixed ls :
  normalised_line <$> ls = ls ↔ forallb canonical_line ls = true.
Proof.
  induction ls as [|l ls IH]; [done|]. rewrite fmap_cons. simpl.
  rewrite andb_true_iff, <-IH, <-normalised_line_fixed. split.
  - by intros [= -> ->].
  - by intros [-> ->].
Qed.

(** The lines rebuilt from the outline of the document itself. *)
Lemma rewritten_untouched content :
  let hs := parseHeadings content in
  rewritten hs (trimmed_entry <$> hs) (split_nl content)
  = normalised_line <$> split_nl content.
Proof.
  intros hs. unfold rewritten. apply list_eq. intros j.
  rewrite list_lookup_imap, list_lookup_fmap.
  destruct (split_nl content !! j) as [l|] eqn:Hl; [|done]. simpl. f_equal.
  unfold rewrite_line, normalised_line.
  destruct (regex_match re_heading l) as [mt|] eqn:Hmt.
  - destruct (scan_lines_complete _ 0 0 _ _ _ Hl Hmt) as (h & Hh & Hline & Hlv & Htx).
    simpl in Hline. subst j.
    fold (parseHeadings content) in Hh. fold hs in Hh.
    rewrite heading_at_elem; [|apply StronglySorted_lt_NoDup, scan_lines_sorted|done].
    rewrite (last_edit_fmap trimmed_entry); [|done|apply scan_lines_NoDup_id|done].
    simpl. by rewrite Hlv, Htx.
  - rewrite heading_at_None; [done|].
    intros (h & -> & (Hl' & (mt & Hmt' & _) & _)%parseHeadings_elem)%list_elem_of_fmap.
    congruence.
Qed.

(** What [applyChanges] returns for the outline as it was produced. *)
Lemma applyChanges_untouched content :
  let hs := parseHeadings content in
  let lines := split_nl content in
  applyChanges hs (outlineText hs) content
  = if forallb canonical_line lines then (None, NoChanges)
    else (Some (join_nl (normalised_line <$> lines)), Updated (length hs) 0 0).
Proof.
  intros hs lines. set (ta := outlineText hs).
  destruct (reconcile_extracted ta content) as (Hlines & _ & Hdel & Hadd).
  pose proof (modified_count hs ta content) as Hmod.
  pose proof (reconcile_flag hs ta content (scan_lines_sorted _ _ _)
                (parseHeadings_in_range content) (parseHeadings_not_NEW content)) as Hflag.
  fold hs in Hlines, Hdel, Hadd. cbv zeta in Hflag.
  unfold ta in Hlines, Hdel, Hadd, Hmod, Hflag. unfold hs in Hlines, Hdel, Hadd, Hmod, Hflag.
  rewrite parse_outlineText_any in Hlines, Hdel, Hadd, Hmod, Hflag.
  fold hs in Hlines, Hdel, Hadd, Hmod, Hflag. fold ta in Hlines, Hdel, Hadd, Hmod, Hflag.
  pose proof (parseHeadings_not_NEW content) as Hnew. fold hs in Hnew.
  rewrite Forall_forall in Hnew.
  assert (missing hs (trimmed_entry <$> hs) = []) as Hmis.
  { apply filter_none. intros h Hh Hn. apply Hn.
    rewrite <-list_fmap_compose. apply list_elem_of_fmap. by exists h. }
  assert (new_lines (trimmed_entry <$> hs) = []) as Hnl.
  { unfold new_lines. rewrite filter_none; [done|].
    intros e (h & -> & Hh)%list_elem_of_fmap. by apply Hnew. }
  assert (filter (λ e, Edited.id e ≠ lit "NEW") (trimmed_entry <$> hs) = trimmed_entry <$> hs)
    as Hall.
  { apply filter_all, Forall_fmap, Forall_forall. intros h Hh. by apply Hnew. }
  pose proof (rewritten_untouched content) as Hrw. cbv zeta in Hrw. fold hs lines in Hrw.
  fold lines in Hlines, Hflag.
  rewrite Hmis, Hnl, Hrw in *. rewrite Hall, <-list_fmap_compose in Hmod.
  change (Edited.id ∘ trimmed_entry) with HeadingInfo.id in Hmod.
  rewrite size_list_to_set in Hmod by apply scan_lines_NoDup_id.
  rewrite app_nil_r in Hlines. rewrite length_fmap in Hmod.
  assert (without_indices [] (normalised_line <$> lines) = normalised_line <$> lines) as Hwi.
  { by apply keep_from_all. }
  rewrite fmap_nil, Hwi in Hlines.
  unfold applyChanges. destruct (forallb canonical_line lines) eqn:Hcan.
  - assert (o_changed (reconcile hs ta content) = false) as ->; [|done].
    apply Hflag. split_and!; [done..|]. by apply normalised_lines_fixed.
  - assert (o_changed (reconcile hs ta content) = true) as ->.
    { apply not_false_iff_true. intros (_ & _ & H)%Hflag.
      apply normalised_lines_fixed in H. congruence. }
    by rewrite Hlines, Hmod, Hdel, Hadd.
Qed.

(** X21.  Pressing Done on the outline as it was produced, on any
    document, rewrites every heading line to its normal form (marker run, one
    space, text without white space at its end) and leaves every other line
    as it is.  When all heading lines have that form already, nothing is
    written and "No changes detected" is shown; otherwise the notice counts
    every heading of the document as modified. *)
Theorem untouched_outline_normalises content :
  let hs := parseHeadings content in
  let lines := split_nl content in
  document_after content (applyChanges hs (outlineText hs) content)
  = join_nl (normalised_line <$> lines) ∧
  (applyChanges hs (outlineText hs) content).2
  = if forallb canonical_line lines then NoChanges else Updated (length hs) 0 0.
Proof.
  intros hs lines. pose proof (applyChanges_untouched content) as H. cbv zeta in H.
  fold hs lines in H. rewrite H.
  destruct (forallb canonical_line lines) eqn:Hcan; [|done]. split; [|done].
  apply normalised_lines_fixed in Hcan. rewrite Hcan. unfold lines. simpl.
  by rewrite join_split.
Qed.

Lemma re_heading_no_text n : regex_match re_heading (replicate n ch_hash ++ [ch_space]) = None.
Proof.
  destruct (regex_match re_heading _) as [mt|] eqn:Hmt; [|done].
  apply re_heading_inv in Hmt as (n' & ws & txt & E & _ & Hws & Hsp & Htxt & _).
  assert (n' < n) as Hlt.
  { apply (f_equal length) in E. rewrite !length_app, !length_replicate in E. simpl in E.
    destruct ws; [done|]. destruct txt; [done|]. simpl in E. lia. }
  apply (f_equal (λ l, l !! n')) in E.
  rewrite lookup_app_l, lookup_replicate_2 in E by (rewrite ?length_replicate; lia).
  rewrite lookup_app_r, length_replicate, Nat.sub_diag in E by (rewrite length_replicate; lia).
  destruct ws as [|x ws]; [done|]. simpl in E. injection E as <-.
  by vm_compute in Hsp.
Qed.

(** The normal form of a line is a line in normal form. *)
Lemma normalised_line_canonical l : canonical_line (normalised_line l) = true.
Proof.
  unfold normalised_line.
  destruct (regex_match re_heading l) as [mt|] eqn:Hmt.
  2:{ unfold canonical_line. by rewrite Hmt. }
  apply re_heading_inv in Hmt as (n & ws & txt & _ & Hn & _ & _ & _ & Hnlt & -> & ->).
  rewrite length_replicate. unfold canonical_line, heading_line.
  pose proof (trim_trim txt) as Htt.
  pose proof (no_line_terminator_trim txt Hnlt) as Hnt.
  destruct (trim txt) as [|c t] eqn:Et.
  - by rewrite re_heading_no_text.
  - destruct (trim_fixed _ Htt) as (c' & [= <-] & Hc); [done|].
    pose proof (re_heading_match n [ch_space] c t Hn) as Hm.
    change ([ch_space] ++ c :: t) with (ch_space :: c :: t) in Hm.
    rewrite Hm by done.
    rewrite group_insert_ne, !group_insert_eq, length_replicate by done.
    apply bool_decide_eq_true_2. by rewrite Htt.
Qed.

Lemma normalised_line_newline_free l :
  newline_free l = true → newline_free (normalised_line l) = true.
Proof.
  intros Hl. unfold normalised_line.
  destruct (regex_match re_heading l) as [mt|] eqn:Hmt; [|done].
  apply re_heading_inv in Hmt as (n & ws & txt & _ & _ & _ & _ & _ & Hnlt & _ & ->).
  by apply heading_line_newline_free, no_line_terminator_trim.
Qed.

Lemma normalised_lines_newline_free ls :
  forallb newline_free ls = true → forallb newline_free (normalised_line <$> ls) = true.
Proof.
  induction ls as [|l ls IH]; [done|]. rewrite fmap_cons. cbn [forallb].
  intros [Hl Hls]%andb_prop. by rewrite normalised_line_newline_free, IH by done.
Qed.

(** X22.  One Done on the untouched outline brings the document to a
    fixed point: opening the dialog again on the document it has written and
    pressing Done reports "No changes detected". *)
Theorem second_done_changes_nothing content :
  let hs := parseHeadings content in
  let after := document_after content (applyChanges hs (outlineText hs) content) in
  let hs' := parseHeadings after in
  applyChanges hs' (outlineText hs') after = (None, NoChanges).
Proof.
  intros hs after hs'.
  assert (after = join_nl (normalised_line <$> split_nl content)) as Hafter.
  { unfold after. pose proof (applyChanges_untouched content) as H. cbv zeta in H.
    fold hs in H. rewrite H.
    destruct (forallb canonical_line (split_nl content)) eqn:Hcan; [|done].
    apply normalised_lines_fixed in Hcan. rewrite Hcan. simpl. by rewrite join_split. }
  pose proof (applyChanges_untouched after) as H. cbv zeta in H. fold hs' in H.
  rewrite H.
  assert (forallb canonical_line (split_nl after) = true) as ->; [|done].
  rewrite Hafter, split_join.
  - apply forallb_forall. intros l (l0 & -> & _)%list_elem_of_In%list_elem_of_fmap.
    apply normalised_line_canonical.
  - apply normalised_lines_newline_free, split_nl_newline_free.
  - pose proof (split_nl_nonempty content). by destruct (split_nl content).
Qed.

(** ** The single request *)

Lemma step_settled_or_waiting d e : settled_or_waiting d → settled_or_waiting (step d e).
Proof.
  intros (Hfl & Hdis & Htx & Hkey). destruct e as [|value|reply]; simpl.
  - unfold enhanceWithAI_call. destruct (decide (apiKey d = [])) as [Hk|Hk]; [done|].
    destruct (isProcessing d) eqn:Hp.
    + unfold settled_or_waiting. by rewrite Hp.
    + unfold settled_or_waiting. simpl. rewrite Hfl, orb_true_r. done.
  - done.
  - destruct (inFlight d) as [|n] eqn:Hn.
    + unfold settled_or_waiting. by rewrite Hn.
    + destruct (isProcessing d) eqn:Hp; [|done].
      assert (apiKey d ≠ []) as Hk.
      { intros Hk. by destruct (Hkey Hk). }
      injection Hfl as ->.
      destruct reply; unfold settled_or_waiting; simpl;
        by rewrite Hn, bool_decide_eq_false_2.
Qed.

Lemma step_apiKey d e : apiKey (step d e) = apiKey d.
Proof.
  destruct e as [|value|reply]; simpl; [|done|].
  - unfold enhanceWithAI_call. destruct (decide _); [done|]. by destruct (isProcessing d).
  - destruct (inFlight d); [done|]. by destruct reply.
Qed.

Lemma run_settled_or_waiting d events :
  settled_or_waiting d →
  settled_or_waiting (run d events) ∧ apiKey (run d events) = apiKey d.
Proof.
  revert d. induction events as [|e es IH]; intros d Hd; [done|]. cbn [run foldl].
  destruct (IH (step d e)) as [H1 H2]; [by apply step_settled_or_waiting|].
  split; [done|]. unfold run in H2. by rewrite H2, step_apiKey.
Qed.

Lemma run_without_key d events :
  settled_or_waiting d → apiKey d = [] →
  textArea_value (run d events) = typed (textArea_value d) events.
Proof.
  revert d. induction events as [|e es IH]; intros d Hd Hk; [done|]. cbn [run typed foldl].
  pose proof (step_settled_or_waiting d e Hd) as Hd'.
  pose proof (step_apiKey d e) as Hk'. rewrite Hk in Hk'.
  unfold run, typed in IH. rewrite IH by done. f_equal.
  destruct Hd as (Hfl & _ & _ & Hkey). destruct (Hkey Hk) as [Hp _].
  rewrite Hp in Hfl. destruct e as [|value|reply]; simpl; [|done|by rewrite Hfl].
  unfold enhanceWithAI_call. by rewrite decide_True.
Qed.

Lemma opened_settled_or_waiting key outline : settled_or_waiting (opened key outline).
Proof. unfold settled_or_waiting. simpl. by rewrite orb_false_r. Qed.

(** X23.  At most one request is in flight, whatever the calls, the
    edits and the replies: a request is in flight exactly when
    [isProcessing] is set; the button is disabled exactly when there is no
    key or a request is in flight; and without a key nothing is ever sent and
    the text area holds what the user has typed. *)
Theorem single_request key outline events :
  let d := run (opened key outline) events in
  inFlight d = (if isProcessing d then 1 else 0) ∧
  aiButton_disabled d = (bool_decide (key = []) || isProcessing d) ∧
  aiButton_text d = (if isProcessing d then Label_Processing else Label_Enhance) ∧
  (key = [] → sent d = [] ∧ textArea_value d = typed outline events).
Proof.
  intros d.
  destruct (run_settled_or_waiting (opened key outline) events
              (opened_settled_or_waiting key outline)) as [(H1 & H2 & H3 & H4) Hk].
  fold d in H1, H2, H3, H4, Hk. simpl in Hk. rewrite Hk in H2, H4.
  split_and!; [done..|]. intros Hkey. split; [by apply H4|].
  by apply (run_without_key (opened key outline)); [apply opened_settled_or_waiting|].
Qed.



(** ** The outline text and its parser *)

(** X25.  The outline text put in the text area has one line for each
    record, in the order of the document, and the parser of the reconciler
    reads every one of them back: the identifier and the level of the record,
    and its text, trimmed. *)
Theorem outline_parses_back content :
  let hs := parseHeadings content in
  nonblank_lines (outlineText hs) = outline_line <$> hs ∧
  parse_edited (outlineText hs) = trimmed_entry <$> hs ∧
  Forall2 (λ h e, Edited.id e = HeadingInfo.id h ∧ Edited.level e = HeadingInfo.level h ∧
                  Edited.text e = trim (HeadingInfo.text h))
          hs (parse_edited (outlineText hs)).
Proof.
  intros hs.
  destruct (outline_of_extracted hs (parseHeadings_extracted content)) as [Hlines _].
  split_and!; [done|apply parse_outlineText_any|].
  unfold hs. rewrite parse_outlineText_any. apply Forall2_fmap_r, Forall_Forall2_diag.
  by apply Forall_forall.
Qed.

(** ** The numbers of the notice *)

(** X26.  When [applyChanges] writes the document, against the records
    extracted from it, the three numbers of the notice are: as "modified",
    the number of distinct identifiers other than [NEW] among the edited
    entries, whether they changed a line or not and whether a record has them
    or not; as "removed", the number of records without an entry; as "added",
    the number of entries tagged [NEW]. *)
Theorem notice_counts ta content doc modified removed added :
  let hs := parseHeadings content in
  let entries := parse_edited ta in
  applyChanges hs ta content = (Some doc, Updated modified removed added) →
  modified
  = size (list_to_set (Edited.id <$> filter (λ e, Edited.id e ≠ lit "NEW") entries)
            : gset (list N)) ∧
  removed = length (missing hs entries) ∧
  added = length (filter (λ e, Edited.id e = lit "NEW") entries).
Proof.
  intros hs entries. unfold applyChanges.
  destruct (o_changed (reconcile hs ta content)); [|done]. intros [= _ <- <- <-].
  destruct (reconcile_extracted ta content) as (_ & _ & Hdel & Hadd).
  fold hs entries in Hdel, Hadd. unfold new_lines in Hadd. rewrite length_fmap in Hadd.
  split_and!; [apply modified_count|done..].
Qed.

Lemma notice_counts_witness :
  let content := lit "# A" ++ ch_nl :: lit "## B" in
  let ta := lit "H1|# A" ++ ch_nl :: lit "H7|# Z" ++ ch_nl :: lit "NEW|# N" in
  applyChanges (parseHeadings content) ta content
  = (Some (lit "# A" ++ ch_nl :: lit "# N"), Updated 2 1 1) ∧
  2 = size (list_to_set (Edited.id <$> filter (λ e, Edited.id e ≠ lit "NEW") (parse_edited ta))
              : gset (list N)) ∧
  1 = length (missing (parseHeadings content) (parse_edited ta)) ∧
  1 = length (filter (λ e, Edited.id e = lit "NEW") (parse_edited ta)).
Proof.
  intros content ta. split; [reflexivity|].
  apply (notice_counts ta content (lit "# A" ++ ch_nl :: lit "# N") 2 1 1). reflexivity.
Defined.
